(** * GROVER fine-tuning tutorial: the data-preparation pipeline and the
      control flow of the training loops, embedded from
      [GROVER_Tutorial.ipynb].

    The notebook is Python.  Its integers are unbounded and are modelled by
    [Z] (positions read from the annotation table) and [nat] (loop counters);
    Python lists are Rocq lists, with the list operations the notebook uses
    ([l[x]], [l[a:b]], [append]) written out with Python's treatment of
    negative and out-of-range arguments; an uncaught [IndexError] or
    [KeyError] is the result [None]. *)

From Stdlib Require Import ZArith QArith Lia DecimalString.
From stdpp Require Import base option list strings sorting.

Close Scope Q_scope.
Local Open Scope Z_scope.

(** ** Python list primitives *)

Module Py.

(** [for i in range(n): s = body i s], as an accumulator loop that starts
    at [from] and runs [count] times. *)
Fixpoint for_loop {S : Type} (from count : nat) (body : nat → S → S) (s : S) : S :=
  match count with
  | O => s
  | Datatypes.S k => for_loop (Datatypes.S from) k body (body from s)
  end.

Definition for_range {S : Type} (n : nat) (body : nat → S → S) (s : S) : S :=
  for_loop 0 n body s.

(** [l.append(x)] *)
Definition append {A : Type} (l : list A) (x : A) : list A := l ++ [x].

(** The position an index [x] denotes in a list of length [n]:
    [0 <= x < n] is itself, [-n <= x < 0] counts from the end, anything else
    raises [IndexError]. *)
Definition index (n : nat) (x : Z) : option nat :=
  if bool_decide (0 ≤ x < Z.of_nat n) then Some (Z.to_nat x)
  else if bool_decide (- Z.of_nat n ≤ x < 0) then Some (Z.to_nat (Z.of_nat n + x))
  else None.

(** [l[x]] *)
Definition getitem {A : Type} (l : list A) (x : Z) : option A :=
  i ← index (length l) x; l !! i.

(** A slice bound is never an error: a negative bound counts from the end,
    and the result is clipped to [0, n]. *)
Definition clip (n : nat) (x : Z) : nat :=
  if bool_decide (x < 0) then Z.to_nat (Z.max 0 (Z.of_nat n + x))
  else Z.to_nat (Z.min x (Z.of_nat n)).

(** [l[a:b]] *)
Definition slice {A : Type} (l : list A) (a b : Z) : list A :=
  let lo := clip (length l) a in
  let hi := clip (length l) b in
  take (hi - lo) (drop lo l).

End Py.

(** ** The position mapper and the region-to-token slicer *)

Module Mapper.

(** A tokenized chromosome is a list of tokens, each token a string of
    nucleotides. *)
Definition token := string.

(** [create_mapper]: the two nested [for] loops over a growing list. *)
Definition create_mapper (tokenized_chr : list token) : list Z :=
  Py.for_range (length tokenized_chr) (λ i mapper,
    Py.for_range (String.length (tokenized_chr !!! i)) (λ _ mapper,
      Py.append mapper (Z.of_nat i)) mapper) [].

(** The forward expansion in the words of the specification: for each token
    in order, its index once per nucleotide it spans, all concatenated. *)
Definition forward_expansion (tokens : list token) : list Z :=
  concat (imap (λ i tok, replicate (String.length tok) (Z.of_nat i)) tokens).

(** The chromosome's nucleotide count. *)
Definition nucleotide_count (tokens : list token) : nat :=
  sum_list (String.length <$> tokens).

(** One motif of the loop body: both boundary lookups, then the slice. *)
Definition slice_region (tokenized_chr : list token) (mapper : list Z)
    (start end_ : Z) : option (list token) :=
  tokenized_start ← Py.getitem mapper start;
  tokenized_end ← Py.getitem mapper end_;
  Some (Py.slice tokenized_chr tokenized_start tokenized_end).

(** The body of the per-chromosome loop: the mapper is built, every start is
    looked up, then every end, and the slices are taken pairwise.  [rows]
    holds the (start, end) columns of the chromosome's motifs. *)
Definition slice_chromosome (tokenized_chr : list token) (rows : list (Z * Z))
    : option (list (list token)) :=
  let mapper := create_mapper tokenized_chr in
  tokenized_starts ← mapM (Py.getitem mapper) (rows.*1);
  tokenized_ends ← mapM (Py.getitem mapper) (rows.*2);
  Some (zip_with (Py.slice tokenized_chr) tokenized_starts tokenized_ends).

(** For the examples: a chromosome of 300 tokens, 1200 nucleotides. *)
Definition example_chr : list token := replicate 300 "ACGT"%string.

End Mapper.

(** ** The annotation table: class labels and the window expansion *)

Module Motif.

(** A cell of the table as [read_csv] yields it: text, a number, or the
    missing value. *)
Inductive cell : Type :=
  | Text (s : string)
  | Int (z : Z)
  | Missing.

(** Python's [x != s] for a string [s]: values of another type are unequal
    to every string. *)
Definition ne_str (x : cell) (s : string) : bool :=
  match x with
  | Text t => negb (bool_decide (t = s))
  | Int _ | Missing => true
  end.

(** [lambda x: 1 if x != "." else 0] *)
Definition class_of (x : cell) : Z := if ne_str x "." then 1 else 0.

(** A row is the list of its cells; a field the file does not give is
    [Missing]. *)
Definition column (k : nat) (row : list cell) : cell := default Missing (row !! k).

(** [annotations["class"] = annotations[9].apply(...)]: the new column. *)
Definition class_column (annotations : list (list cell)) : list Z :=
  (λ row, class_of (column 9 row)) <$> annotations.

(** The window expansion with the arithmetic as written; [//] is floor
    division. *)
Definition expand_window (start end_ : Z) : Z * Z :=
  let center_of_motif := start + (end_ - start) `div` 2 in
  (center_of_motif - 500, center_of_motif + 500).

(** The same on the table's [int64] columns, where every operation wraps
    around silently. *)
Definition int64_min : Z := - 2 ^ 63.
Definition int64_max : Z := 2 ^ 63 - 1.
Definition is_int64 (z : Z) : Prop := int64_min ≤ z ≤ int64_max.
Definition wrap64 (z : Z) : Z := (z + 2 ^ 63) `mod` 2 ^ 64 - 2 ^ 63.
Definition add64 (a b : Z) : Z := wrap64 (a + b).
Definition sub64 (a b : Z) : Z := wrap64 (a - b).
Definition floordiv64 (a b : Z) : Z := wrap64 (a `div` b).

Definition expand_window64 (start end_ : Z) : Z * Z :=
  let center_of_motif := add64 start (floordiv64 (sub64 end_ start) 2) in
  (sub64 center_of_motif 500, add64 center_of_motif 500).

End Motif.

(** ** The train/validation/test split *)

Module Split.

(** [round(x)] on a fraction: the nearest integer, a tie going to the even
    one. *)
Definition py_round (q : Q) : Z :=
  let d := Z.pos (Qden q) in
  let f := Qnum q `div` d in
  let r := Qnum q `mod` d in
  if bool_decide (2 * r < d) then f
  else if bool_decide (d < 2 * r) then f + 1
  else if Z.even f then f else f + 1.

(** [sample] draws [round(frac * len(df))] rows.  The fractions of the
    notebook are 0.8 and 0.5; the product is taken exactly here, which is
    what the floating-point product rounds to for every table of fewer than
    2^47 rows (0.5 * n is exact, and 0.8 * n is never within 0.1 of a
    tie). *)
Definition sample_size (frac : Q) (n : nat) : nat :=
  Z.to_nat (py_round (frac * inject_Z (Z.of_nat n))).

Section Frame.

(** The payload of a row (token sequence and class). *)
Context {R : Type}.

(** A data frame: its rows in order, each with its index label. *)
Definition frame : Type := list (Z * R).

Definition index_of (df : frame) : list Z := df.*1.

(** [RandomState(42).choice(n, size, replace=False)]: the positions drawn.
    Both calls of the notebook seed a fresh generator with 42, so the draw
    is a function of [n] and [size]. *)
Variable choice : nat → nat → list nat.

(** [df.sample(frac=..., random_state=42)]: the rows at the drawn
    positions. *)
Definition sample (frac : Q) (df : frame) : frame :=
  omap (λ i, df !! i) (choice (length df) (sample_size frac (length df))).

(** [df.drop(labels)]: every row carrying one of the labels goes; a label
    the frame lacks raises [KeyError]. *)
Definition drop_rows (labels : list Z) (df : frame) : option frame :=
  if bool_decide (Forall (λ l, l ∈ index_of df) labels)
  then Some (filter (λ row, row.1 ∉ labels) df)
  else None.

(** The four lines of the split. *)
Definition split (grover_dataset : frame) : option (frame * frame * frame) :=
  let train_data := sample (8 # 10) grover_dataset in
  test_data ← drop_rows (index_of train_data) grover_dataset;
  let val_data := sample (5 # 10) test_data in
  test_data ← drop_rows (index_of val_data) test_data;
  Some (train_data, val_data, test_data).

End Frame.

(** The index [read_csv] gives a table of [n] rows: their numbers. *)
Definition range_index (n : nat) : list Z := Z.of_nat <$> seq 0 n.

(** For the examples: ten rows labelled 100 to 109, and a generator that
    draws the leading positions. *)
Definition ten_rows : @frame nat := (λ i, (Z.of_nat i + 100, i)) <$> seq 0 10.

Definition leading_choice (n size : nat) : list nat := seq 0 size.

End Split.

(** ** The training driver and the prediction threshold *)

Module Training.

(** A floating-point value, as far as comparisons see it: a non-NaN value
    is the rational it denotes or an infinity, and comparing two of them is
    exact; every ordered comparison with NaN is false. *)
Inductive float : Type :=
  | Num (q : Q)
  | PosInf
  | NegInf
  | NaN.

Definition is_nan (x : float) : bool :=
  match x with NaN => true | _ => false end.

(** [x < y] *)
Definition flt (x y : float) : bool :=
  match x, y with
  | NaN, _ | _, NaN => false
  | _, NegInf => false
  | NegInf, _ => true
  | PosInf, _ => false
  | Num _, PosInf => true
  | Num a, Num b => negb (Qle_bool b a)
  end.

(** [x > y] *)
Definition fgt (x y : float) : bool := flt y x.

(** The driver's state: the best loss so far and the epochs in which the
    output directory was written. *)
Record state : Type := State {
  best_val_loss : float;
  saved : list nat
}.

(** The body of the epoch loop after [val_loop] has returned [val_loss]. *)
Definition epoch_step (epoch : nat) (val_loss : float) (st : state) : state :=
  if flt val_loss (best_val_loss st)
  then {| best_val_loss := val_loss; saved := Py.append (saved st) epoch |}
  else st.

(** The whole run: [baseline] is the loss [val_loop] returns before the
    first epoch, [val_losses] the losses it returns after each epoch. *)
Definition train (baseline : float) (val_losses : list float) : state :=
  Py.for_range (length val_losses)
    (λ epoch st, epoch_step epoch (default NaN (val_losses !! epoch)) st)
    {| best_val_loss := baseline; saved := [] |}.

(** What holds after [k] epochs: the best loss is one of those seen and
    none of them is below it; it is NaN exactly when the baseline is; and
    the epochs recorded are those, after a baseline that is a number, whose
    loss was below every loss seen before that is a number. *)
Definition train_invariant (baseline : float) (val_losses : list float)
    (k : nat) (st : state) : Prop :=
  best_val_loss st ∈ baseline :: take k val_losses
  ∧ (∀ p, p ∈ baseline :: take k val_losses → flt p (best_val_loss st) = false)
  ∧ is_nan (best_val_loss st) = is_nan baseline
  ∧ (∀ e, e ∈ saved st ↔
       (e < k)%nat
       ∧ is_nan baseline = false
       ∧ ∀ p, p ∈ baseline :: take e val_losses → is_nan p = false →
              flt (default NaN (val_losses !! e)) p = true).

(** [1 if p > 0.5 else 0] *)
Definition threshold (p : float) : float :=
  if fgt p (Num (1 # 2)) then Num 1 else Num 0.

(** The two nested loops over one batch of sigmoid outputs.  A row
    [probs_i] is a view of the tensor, so the assignment to [probs_i[j]]
    writes into row [i] of [probs]. *)
Definition harden_row (probs_i : list float) : list float :=
  Py.for_range (length probs_i)
    (λ j probs_i, <[j := threshold (default NaN (probs_i !! j))]> probs_i) probs_i.

Definition harden (probs : list (list float)) : list (list float) :=
  Py.for_range (length probs)
    (λ i probs, <[i := harden_row (default [] (probs !! i))]> probs) probs.

(** [preds] of [val_loop] and of [test_loop]: one hardened tensor per batch
    (the two loops share this part word for word). *)
Definition val_loop_preds (batches : list (list (list float))) : list (list (list float)) :=
  Py.for_range (length batches)
    (λ b preds, Py.append preds (harden (default [] (batches !! b)))) [].

Definition test_loop_preds (batches : list (list (list float))) : list (list (list float)) :=
  Py.for_range (length batches)
    (λ b preds, Py.append preds (harden (default [] (batches !! b)))) [].

(** Element [j] of sample [i] of batch [b]. *)
Definition element (preds : list (list (list float))) (b i j : nat) : option float :=
  probs ← preds !! b; probs_i ← probs !! i; probs_i !! j.

End Training.

(** ** The dataset layer *)

Module Encoding.

Section Tokenizer.

(** The vocabulary and the special ids of the pretrained tokenizer. *)
Variable vocab : string → option Z.
Variables cls_id sep_id pad_id unk_id mask_id : Z.

Definition all_special_ids : list Z := [unk_id; sep_id; pad_id; cls_id; mask_id].

(** Modelled from the spec: the vocabulary lookup of the external
    tokenizer, which turns each token of a sequence into its id; a token
    outside the vocabulary becomes the unknown id. *)
Definition convert_tokens_to_ids (seq : list string) : list Z :=
  (λ t, default unk_id (vocab t)) <$> seq.

(** Modelled from the spec: the truncation [encode_plus] applies with
    [truncation=True]: with the two boundary tokens the sequence may hold
    [max_length] ids, the excess is cut at the end, and the tokenizer leaves
    the ids alone when the cut would take them all. *)
Definition truncate (ids : list Z) (max_length : nat) : list Z :=
  let num_tokens_to_remove := (length ids + 2 - max_length)%nat in
  if bool_decide (num_tokens_to_remove < length ids)%nat
  then take (length ids - num_tokens_to_remove) ids
  else ids.

(** Modelled from the spec: [encode_plus] of the external tokenizer, called
    with [add_special_tokens=True, padding="max_length", truncation=True].
    The ids are truncated, wrapped in the two boundary tokens, and padded on
    the right to [max_length]; the attention mask marks the positions that
    are not padding.  An empty sequence is refused. *)
Definition encode_plus (seq : list string) (max_length : nat) : option (list Z * list Z) :=
  match seq with
  | [] => None
  | _ =>
    let ids := truncate (convert_tokens_to_ids seq) max_length in
    let body := [cls_id] ++ ids ++ [sep_id] in
    let padding := (max_length - length body)%nat in
    Some (body ++ replicate padding pad_id,
          replicate (length body) 1 ++ replicate padding 0)
  end.

(** Modelled from the spec: decoding with the special tokens skipped drops
    every id that is a special one. *)
Definition strip_special (ids : list Z) : list Z :=
  filter (λ i, i ∉ all_special_ids) ids.

(** [GroverDataSet]: the sequences, the one-hot rows the constructor
    computed from the labels, and the maximum length. *)
Record GroverDataSet : Type := {
  sequences : list (list string);
  y : list (list Z);
  max_length : nat
}.

(** [__getitem__]: [(ids, y[idx], attention_masks, idx)]; the attention
    mask is kept as the row it is. *)
Definition getitem (self : GroverDataSet) (idx : Z)
    : option (list Z * list Z * list Z * Z) :=
  seq ← Py.getitem (sequences self) idx;
  tokenizer_res ← encode_plus seq (max_length self);
  label ← Py.getitem (y self) idx;
  Some (tokenizer_res.1, label, tokenizer_res.2, idx).

(** A token the vocabulary knows under an id that is not a special one. *)
Definition ordinary (t : string) : Prop :=
  ∃ i, vocab t = Some i ∧ i ∉ all_special_ids.

End Tokenizer.

(** For the examples: a vocabulary of three tokens. *)
Definition example_vocab (t : string) : option Z :=
  if bool_decide (t = "ACG"%string) then Some 10
  else if bool_decide (t = "TTGCA"%string) then Some 11
  else if bool_decide (t = "GG"%string) then Some 12
  else None.

Definition example_dataset : GroverDataSet :=
  {| sequences := [["ACG"; "TTGCA"; "GG"]; ["GG"; "ACG"; "ACG"; "TTGCA"; "GG"]]%string;
     y := [[1; 0]; [0; 1]];
     max_length := 6 |}.

(** A dataset whose only sequence holds a token outside the vocabulary. *)
Definition unknown_dataset : GroverDataSet :=
  {| sequences := [["ACG"; "NNNN"; "GG"]]%string;
     y := [[1; 0]];
     max_length := 6 |}.

End Encoding.

(** ** The motif table and the tokenization loop *)

Module Table.

(** A row of [data]: the four columns kept from the annotation table. *)
Record motif : Type := Motif {
  chr : string;
  start : Z;
  end_ : Z;
  class : Z
}.

(** [lambda x: True if len(x) <= 5 else False] *)
Definition short_name (x : string) : bool :=
  bool_decide (String.length x ≤ 5)%nat.

(** [data.loc[data["chr"].apply(...)]]: the rows kept, labels and order
    untouched. *)
Definition filter_scaffolds (data : @Split.frame motif) : @Split.frame motif :=
  filter (λ row, short_name (chr row.2) = true) data.

(** The window expansion on one row and on the whole table, with the
    arithmetic as written, on integers without bound. *)
Definition expand_row (m : motif) : motif :=
  let w := Motif.expand_window (start m) (end_ m) in
  {| chr := chr m; start := w.1; end_ := w.2; class := class m |}.

Definition expand_all (data : @Split.frame motif) : @Split.frame motif :=
  (λ row, (row.1, expand_row row.2)) <$> data.

(** The same on the table's [int64] columns, as the cell computes it: every
    operation wraps around silently. *)
Definition expand_row64 (m : motif) : motif :=
  let w := Motif.expand_window64 (start m) (end_ m) in
  {| chr := chr m; start := w.1; end_ := w.2; class := class m |}.

Definition expand_all64 (data : @Split.frame motif) : @Split.frame motif :=
  (λ row, (row.1, expand_row64 row.2)) <$> data.

(** No operation of the expansion wraps: the two coordinates are [int64]
    values, and so are their difference and the two ends of the window. *)
Definition no_wrap (start end_ : Z) : Prop :=
  let center := start + (end_ - start) `div` 2 in
  Motif.is_int64 start ∧ Motif.is_int64 end_
  ∧ Motif.is_int64 (end_ - start)
  ∧ Motif.is_int64 (center - 500) ∧ Motif.is_int64 (center + 500).

(** What [sort_values(by=["chr"])] leaves: the names in non-decreasing
    string order. *)
Definition sorted_by_chr (rows : list motif) : Prop :=
  StronglySorted (λ a b, String.leb (chr a) (chr b) = true) rows.

(** Rows of one chromosome next to each other: a name that comes again
    comes again at once. *)
Inductive grouped : list motif → Prop :=
  | grouped_nil : grouped []
  | grouped_cons m rows :
      grouped rows →
      (chr m ∈ chr <$> rows → chr <$> head rows = Some (chr m)) →
      grouped (m :: rows).

End Table.

Module Tokenize.

Import Table.

(** [Series.unique()]: the distinct values in order of first appearance. *)
Fixpoint unique (l : list string) : list string :=
  match l with
  | [] => []
  | x :: l => x :: filter (λ y, y ≠ x) (unique l)
  end.

(** [s[n:]] *)
Fixpoint str_drop (n : nat) (s : string) : string :=
  match n, s with
  | O, _ => s
  | Datatypes.S _, EmptyString => EmptyString
  | Datatypes.S k, String _ t => str_drop k t
  end.

(** [chrom_nr] is the text after the first three characters, or a number
    for the two sex chromosomes. *)
Inductive chrom_number : Type :=
  | Suffix (s : string)
  | Number (n : Z).

Definition chrom_nr (chrom : string) : chrom_number :=
  let nr := str_drop 3 chrom in
  if bool_decide (nr = "X"%string) then Number 23
  else if bool_decide (nr = "Y"%string) then Number 24
  else Suffix nr.

(** How the f-string prints it. *)
Definition str (v : chrom_number) : string :=
  match v with
  | Suffix s => s
  | Number n => NilZero.string_of_int (Z.to_int n)
  end.

(** [f"tokenized_chromosomes/chr_{chrom_nr}.pkl"] *)
Definition chrom_file (chrom : string) : string :=
  ("tokenized_chromosomes/chr_" ++ str (chrom_nr chrom) ++ ".pkl")%string.

(** [for x in xs: s = body x s], a body that raises ending the loop. *)
Fixpoint for_each {A S : Type} (xs : list A) (body : A → S → option S) (s : S)
    : option S :=
  match xs with
  | [] => Some s
  | x :: xs => s' ← body x s; for_each xs body s'
  end.

Section Files.

(** The pickled token lists on disk, by file name; a missing file raises. *)
Variable files : string → option (list Mapper.token).

(** The body of the loop over the chromosome names. *)
Definition tokenize_chromosome (data : list motif) (chrom : string)
    (tokenized_seqs : list (list Mapper.token)) : option (list (list Mapper.token)) :=
  let data_chr := filter (λ m, chr m = chrom) data in
  tokenized_chr ← files (chrom_file chrom);
  slices ← Mapper.slice_chromosome tokenized_chr ((λ m, (start m, end_ m)) <$> data_chr);
  Some (foldl Py.append tokenized_seqs slices).

(** The whole loop: [tokenized_seqs] at its end. *)
Definition tokenize (data : list motif) : option (list (list Mapper.token)) :=
  for_each (unique (chr <$> data)) (tokenize_chromosome data) [].

(** [pd.DataFrame({'X': tokenized_seqs, 'class': data["class"]})]: the
    index is that of [data], the sequences are paired with it by position,
    and a list of another length raises. *)
Definition build_dataset (data : @Split.frame motif)
    (tokenized_seqs : list (list Mapper.token))
    : option (@Split.frame (list Mapper.token * Z)) :=
  if bool_decide (length tokenized_seqs = length data)
  then Some (zip_with (λ row x, (row.1, (x, class row.2))) data tokenized_seqs)
  else None.

Definition grover_dataset (data : @Split.frame motif)
    : option (@Split.frame (list Mapper.token * Z)) :=
  tokenized_seqs ← tokenize (data.*2);
  build_dataset data tokenized_seqs.

(** The token sequence of one motif, from its own chromosome's file. *)
Definition region (m : motif) : option (list Mapper.token) :=
  tokenized_chr ← files (chrom_file (chr m));
  Mapper.slice_region tokenized_chr (Mapper.create_mapper tokenized_chr)
    (start m) (end_ m).

End Files.

(** The rows in the order the loop visits them: chromosome by chromosome,
    the chromosomes in order of first appearance. *)
Definition regroup (data : list motif) : list motif :=
  mbind (λ chrom, filter (λ m, chr m = chrom) data) (unique (chr <$> data)).

(** The nucleotide at which token [t] begins. *)
Definition offset (tokens : list Mapper.token) (t : nat) : nat :=
  Mapper.nucleotide_count (take t tokens).

(** For the examples: two chromosomes on disk and four motifs. *)
Definition example_files (name : string) : option (list Mapper.token) :=
  if bool_decide (name = "tokenized_chromosomes/chr_1.pkl"%string)
  then Some ["ACG"; "TTGCA"; "GG"; "CATG"]%string
  else if bool_decide (name = "tokenized_chromosomes/chr_23.pkl"%string)
  then Some ["TT"; "ACGT"; "G"]%string
  else None.

Definition example_data : @Split.frame motif :=
  [(4, Motif "chr1" 1 8 1); (0, Motif "chr1" 4 12 0);
   (7, Motif "chrX" 0 6 1); (2, Motif "chrX" 3 3 0)]%string.

(** A table as read from the file, one scaffold among its rows, the same
    table filtered and sorted, and a disk on which every chromosome holds
    the 1200 nucleotides of [Mapper.example_chr]. *)
Definition example_table : @Split.frame motif :=
  [(0, Motif "chr2" 595 606 1); (1, Motif "chr1_gl000191_random" 10 29 0);
   (2, Motif "chr1" 640 659 0); (3, Motif "chr2" 300 700 1)]%string.

Definition example_sorted : @Split.frame motif :=
  [(2, Motif "chr1" 640 659 0); (0, Motif "chr2" 595 606 1);
   (3, Motif "chr2" 300 700 1)]%string.

Definition uniform_files (name : string) : option (list Mapper.token) :=
  Some Mapper.example_chr.

End Tokenize.

(** ** The label encoding of the dataset layer *)

Module Labels.

(** [np.array(y, dtype=np.float32)] on the integer class column: each
    label becomes the nearest value with a significand of 24 bits, a tie
    going to the even significand.  Integers up to 2^24 in size are kept as
    they are; the result of a larger one is again an integer (the column's
    64 bits are far from the largest such value). *)
Definition float32_of_int (z : Z) : Z :=
  let a := Z.abs z in
  if bool_decide (a < 2 ^ 24) then z
  else
    let e := Z.log2 a - 23 in
    let q := a `div` 2 ^ e in
    let r := a `mod` 2 ^ e in
    let half := 2 ^ (e - 1) in
    let q := if bool_decide (half < r ∨ (r = half ∧ Z.odd q = true))
             then q + 1 else q in
    Z.sgn z * (q * 2 ^ e).

(** The encoder is scikit-learn's [OneHotEncoder], taken as its
    documentation describes it.  [fit]: the categories are the distinct
    values in increasing order. *)
Definition categories (y : list Z) : list Z := merge_sort Z.le (remove_dups y).

(** [transform] of one value: a one in the column of its category. *)
Definition one_hot (cats : list Z) (label : Z) : list Z :=
  (λ c, if bool_decide (c = label) then 1 else 0) <$> cats.

(** The four lines of [__init__] on the labels: the cast, then [fit] and
    [transform] on the same values; [fit] refuses an empty array. *)
Definition fit_transform (y : list Z) : option (list (list Z)) :=
  let y := float32_of_int <$> y in
  match y with
  | [] => None
  | _ => Some (one_hot (categories y) <$> y)
  end.

(** [GroverDataSet.__init__] *)
Definition init (sequences : list (list string)) (y : list Z) (max_length : nat)
    : option Encoding.GroverDataSet :=
  labels ← fit_transform y;
  Some {| Encoding.sequences := sequences;
          Encoding.y := labels;
          Encoding.max_length := max_length |}.

End Labels.

(** * Properties *)

(** ** Loops *)

Section Loops.

Context {S : Type}.
Implicit Types (body : nat → S → S) (s : S).

(** One more iteration runs the body once more at the end. *)
Lemma for_loop_succ body from count s :
  Py.for_loop from (Datatypes.S count) body s
  = body (from + count)%nat (Py.for_loop from count body s).
Proof.
  revert from s. induction count as [|k IH]; intros from s.
  - simpl. by rewrite Nat.add_0_r.
  - change (Py.for_loop from (Datatypes.S (Datatypes.S k)) body s)
      with (Py.for_loop (Datatypes.S from) (Datatypes.S k) body (body from s)).
    rewrite IH. simpl. f_equal. lia.
Qed.

(** The invariant rule of the counting loop. *)
Lemma for_loop_invariant (P : nat → S → Prop) body from count s :
  P from s →
  (∀ i t, (from ≤ i < from + count)%nat → P i t → P (Datatypes.S i) (body i t)) →
  P (from + count)%nat (Py.for_loop from count body s).
Proof.
  intros Hs Hstep. induction count as [|k IH].
  - simpl. by rewrite Nat.add_0_r.
  - rewrite for_loop_succ, Nat.add_succ_r. apply Hstep; [lia|].
    apply IH. intros i t Hi. apply Hstep. lia.
Qed.

Lemma for_range_invariant (P : nat → S → Prop) body n s :
  P 0%nat s →
  (∀ i t, (i < n)%nat → P i t → P (Datatypes.S i) (body i t)) →
  P n (Py.for_range n body s).
Proof.
  intros Hs Hstep. unfold Py.for_range.
  apply (for_loop_invariant P body 0 n s Hs).
  intros i t Hi. apply Hstep. lia.
Qed.

End Loops.

(** ** The position mapper *)

Section MapperFacts.

Import Mapper.

(** The inner loop appends the index once per nucleotide. *)
Lemma inner_loop_replicate (n : nat) (x : Z) (mapper : list Z) :
  Py.for_range n (λ _ mapper, Py.append mapper x) mapper = mapper ++ replicate n x.
Proof.
  apply (for_range_invariant (λ k m, m = mapper ++ replicate k x)).
  - simpl. by rewrite app_nil_r.
  - intros i t _ ->. unfold Py.append.
    rewrite <- (assoc_L (++)). f_equal.
    change [x] with (replicate 1 x). rewrite <- replicate_add.
    f_equal. lia.
Qed.

(** The outer loop over the tokens that remain, [pre] being those done. *)
Lemma outer_loop_expansion (pre rest : list token) (mapper : list Z) :
  Py.for_loop (length pre) (length rest) (λ i mapper,
    Py.for_range (String.length ((pre ++ rest) !!! i)) (λ _ mapper,
      Py.append mapper (Z.of_nat i)) mapper) mapper
  = mapper ++ concat (imap (λ i tok,
      replicate (String.length tok) (Z.of_nat (length pre + i))) rest).
Proof.
  revert pre mapper. induction rest as [|tok rest IH]; intros pre mapper.
  - simpl. by rewrite app_nil_r.
  - simpl. rewrite inner_loop_replicate.
    rewrite list_lookup_total_middle by done.
    specialize (IH (pre ++ [tok])).
    rewrite length_app in IH. simpl in IH.
    rewrite <- (assoc_L (++)) in IH. simpl in IH.
    rewrite Nat.add_1_r in IH. rewrite IH.
    rewrite <- (assoc_L (++)). f_equal. rewrite Nat.add_0_r. f_equal.
    f_equal. apply imap_ext. intros i t _. simpl. do 2 f_equal. lia.
Qed.

Lemma create_mapper_expansion (tokens : list token) :
  create_mapper tokens = forward_expansion tokens.
Proof.
  unfold create_mapper, forward_expansion, Py.for_range.
  exact (outer_loop_expansion [] tokens []).
Qed.

Lemma expansion_length (k : nat) (tokens : list token) :
  length (concat (imap (λ i tok,
    replicate (String.length tok) (Z.of_nat (k + i))) tokens))
  = nucleotide_count tokens.
Proof.
  unfold nucleotide_count.
  revert k. induction tokens as [|tok tokens IH]; intros k; [done|].
  simpl. rewrite length_app, length_replicate.
  f_equal. etransitivity; [|exact (IH (Datatypes.S k))]. do 2 f_equal.
  apply imap_ext. intros i t _. simpl. do 2 f_equal. lia.
Qed.

(** Every value of the expansion of the tokens from [k] on lies in
    [k, k + number of tokens). *)
Lemma expansion_bounds (k : nat) (tokens : list token) (v : Z) :
  v ∈ concat (imap (λ i tok,
    replicate (String.length tok) (Z.of_nat (k + i))) tokens) →
  Z.of_nat k ≤ v < Z.of_nat (k + length tokens).
Proof.
  revert k. induction tokens as [|tok tokens IH]; intros k; simpl.
  - by intros ?%elem_of_nil.
  - rewrite elem_of_app. intros [Hv|Hv].
    + apply elem_of_replicate in Hv as [-> _]. lia.
    + rewrite (imap_ext _ (λ i tok, replicate (String.length tok)
        (Z.of_nat (Datatypes.S k + i)))) in Hv.
      * apply IH in Hv. lia.
      * intros i t _. simpl. do 2 f_equal. lia.
Qed.

Lemma expansion_sorted (k : nat) (tokens : list token) :
  StronglySorted Z.le (concat (imap (λ i tok,
    replicate (String.length tok) (Z.of_nat (k + i))) tokens)).
Proof.
  revert k. induction tokens as [|tok tokens IH]; intros k; simpl.
  - constructor.
  - rewrite (imap_ext _ (λ i tok, replicate (String.length tok)
      (Z.of_nat (Datatypes.S k + i)))).
    2:{ intros i t _. simpl. do 2 f_equal. lia. }
    rewrite Nat.add_0_r.
    induction (String.length tok) as [|n IHn]; simpl; [exact (IH (Datatypes.S k))|].
    constructor; [exact IHn|].
    apply Forall_forall. intros v. rewrite elem_of_app. intros [Hv|Hv].
    + apply elem_of_replicate in Hv as [-> _]. lia.
    + apply (expansion_bounds (Datatypes.S k)) in Hv. lia.
Qed.

(** In index order: an earlier position never maps to a later token. *)
Lemma sorted_lookup_le (l : list Z) (i j : nat) (a b : Z) :
  StronglySorted Z.le l → (i ≤ j)%nat →
  l !! i = Some a → l !! j = Some b → a ≤ b.
Proof.
  intros Hs. revert i j. induction Hs as [|x l Hs IH Hx]; intros i j Hij Ha Hb.
  - by rewrite lookup_nil in Ha.
  - destruct i as [|i], j as [|j]; simpl in *; simplify_eq; try lia.
    + rewrite Forall_forall in Hx. apply Hx. by eapply list_elem_of_lookup_2.
    + apply (IH i j); [lia|done..].
Qed.

Lemma create_mapper_sorted (tokens : list token) :
  StronglySorted Z.le (create_mapper tokens).
Proof.
  rewrite create_mapper_expansion. exact (expansion_sorted 0 tokens).
Qed.

Lemma create_mapper_length (tokens : list token) :
  length (create_mapper tokens) = nucleotide_count tokens.
Proof.
  rewrite create_mapper_expansion. exact (expansion_length 0 tokens).
Qed.

(** C1: for every chromosome token list, the mapper built by
    [create_mapper] has as many entries as the chromosome has nucleotides
    (the sum of the token lengths), and its values, read in index order, are
    non-decreasing. *)
Theorem create_mapper_length_monotone (tokenized_chr : list token) :
  length (create_mapper tokenized_chr) = nucleotide_count tokenized_chr
  ∧ StronglySorted Z.le (create_mapper tokenized_chr).
Proof.
  split; [apply create_mapper_length|apply create_mapper_sorted].
Qed.

(** C2: [create_mapper] is exactly the forward expansion: for every token
    list the output is the concatenation, in token order, of [len(token_i)]
    copies of the index [i]; the empty input gives the empty mapper, and
    tokens of lengths 3, 5 and 2 give [0,0,0,1,1,1,1,1,2,2], whose entry at
    position 4 is 1. *)
Theorem create_mapper_forward_expansion :
  (∀ tokenized_chr : list token,
     create_mapper tokenized_chr
     = concat (imap (λ i tok, replicate (String.length tok) (Z.of_nat i)) tokenized_chr))
  ∧ create_mapper [] = []
  ∧ create_mapper ["ACG"; "TTGCA"; "GG"]%string = [0; 0; 0; 1; 1; 1; 1; 1; 2; 2]
  ∧ Py.getitem (create_mapper ["ACG"; "TTGCA"; "GG"]%string) 4 = Some 1.
Proof.
  split; [exact create_mapper_expansion|]. by repeat split.
Qed.

End MapperFacts.

(** ** Indexing and slicing *)

Section IndexFacts.

Context {A : Type}.
Implicit Types (l : list A) (x : Z).

Lemma getitem_nonneg l x :
  0 ≤ x < Z.of_nat (length l) → Py.getitem l x = l !! Z.to_nat x.
Proof.
  intros Hx. unfold Py.getitem, Py.index.
  by rewrite bool_decide_eq_true_2.
Qed.

Lemma getitem_negative l x :
  - Z.of_nat (length l) ≤ x < 0 →
  Py.getitem l x = l !! Z.to_nat (Z.of_nat (length l) + x).
Proof.
  intros Hx. unfold Py.getitem, Py.index.
  rewrite bool_decide_eq_false_2 by lia.
  by rewrite bool_decide_eq_true_2.
Qed.

Lemma getitem_out_of_range l x :
  x < - Z.of_nat (length l) ∨ Z.of_nat (length l) ≤ x → Py.getitem l x = None.
Proof.
  intros Hx. unfold Py.getitem, Py.index.
  by rewrite !bool_decide_eq_false_2 by lia.
Qed.

(** A lookup succeeds exactly on [-len, len). *)
Lemma getitem_is_Some l x :
  is_Some (Py.getitem l x) ↔ - Z.of_nat (length l) ≤ x < Z.of_nat (length l).
Proof.
  split.
  - intros Hs.
    destruct (decide (- Z.of_nat (length l) ≤ x < Z.of_nat (length l))) as [|Hn]; [done|].
    rewrite getitem_out_of_range in Hs by lia. by destruct Hs.
  - intros Hx. destruct (decide (0 ≤ x)).
    + rewrite getitem_nonneg by lia. apply lookup_lt_is_Some_2. lia.
    + rewrite getitem_negative by lia. apply lookup_lt_is_Some_2. lia.
Qed.

(** Between two positions of the list a slice is the plain sublist. *)
Lemma slice_nonneg l (a b : Z) :
  0 ≤ a ≤ Z.of_nat (length l) → 0 ≤ b ≤ Z.of_nat (length l) →
  Py.slice l a b = take (Z.to_nat b - Z.to_nat a) (drop (Z.to_nat a) l).
Proof.
  intros Ha Hb. unfold Py.slice, Py.clip.
  rewrite !bool_decide_eq_false_2 by lia.
  by rewrite !Z.min_l by lia.
Qed.

Lemma slice_empty l (a b : Z) :
  0 ≤ b ≤ a → Py.slice l a b = [].
Proof.
  intros Hab. unfold Py.slice, Py.clip.
  rewrite !bool_decide_eq_false_2 by lia.
  replace (Z.to_nat (b `min` Z.of_nat (length l))
           - Z.to_nat (a `min` Z.of_nat (length l)))%nat with 0%nat by lia.
  done.
Qed.

End IndexFacts.

(** ** The region-to-token slicer *)

Section SlicerFacts.

Import Mapper.

(** Every entry of the mapper is the index of a token. *)
Lemma create_mapper_values (tokens : list token) (v : Z) :
  v ∈ create_mapper tokens → 0 ≤ v < Z.of_nat (length tokens).
Proof.
  rewrite create_mapper_expansion. unfold forward_expansion.
  intros Hv. by apply (expansion_bounds 0) in Hv.
Qed.

Lemma create_mapper_monotone (tokens : list token) (i j : nat) (a b : Z) :
  (i ≤ j)%nat →
  create_mapper tokens !! i = Some a → create_mapper tokens !! j = Some b → a ≤ b.
Proof.
  apply sorted_lookup_le. apply create_mapper_sorted.
Qed.

(** C6: for every motif whose expanded start and end both lie within
    [0, mapper length), neither boundary lookup is out of bounds and the
    slicer returns [tokenized_chr[mapper[start] : mapper[end]]], the plain
    sublist between the two token indices.  The code has no bounds check of
    its own: a lookup succeeds exactly when the position lies in
    [-len, len), so it is the precondition that keeps both lookups in
    bounds. *)
Theorem slice_region_in_bounds (tokenized_chr : list token) (start end_ : Z) :
  let mapper := create_mapper tokenized_chr in
  0 ≤ start < Z.of_nat (length mapper) →
  0 ≤ end_ < Z.of_nat (length mapper) →
  ∃ tokenized_start tokenized_end,
    mapper !! Z.to_nat start = Some tokenized_start
    ∧ mapper !! Z.to_nat end_ = Some tokenized_end
    ∧ Py.getitem mapper start = Some tokenized_start
    ∧ Py.getitem mapper end_ = Some tokenized_end
    ∧ slice_region tokenized_chr mapper start end_
      = Some (Py.slice tokenized_chr tokenized_start tokenized_end)
    ∧ Py.slice tokenized_chr tokenized_start tokenized_end
      = take (Z.to_nat tokenized_end - Z.to_nat tokenized_start)
          (drop (Z.to_nat tokenized_start) tokenized_chr)
    ∧ (∀ x, is_Some (Py.getitem mapper x)
            ↔ - Z.of_nat (length mapper) ≤ x < Z.of_nat (length mapper)).
Proof.
  intros mapper Hs He.
  destruct (lookup_lt_is_Some_2 mapper (Z.to_nat start)) as [ts Hts]; [lia|].
  destruct (lookup_lt_is_Some_2 mapper (Z.to_nat end_)) as [te Hte]; [lia|].
  exists ts, te.
  assert (Py.getitem mapper start = Some ts) as Hgs
    by (by rewrite getitem_nonneg).
  assert (Py.getitem mapper end_ = Some te) as Hge
    by (by rewrite getitem_nonneg).
  pose proof (create_mapper_values tokenized_chr ts
    (list_elem_of_lookup_2 _ _ _ Hts)).
  pose proof (create_mapper_values tokenized_chr te
    (list_elem_of_lookup_2 _ _ _ Hte)).
  split_and!; try done.
  - unfold slice_region. by rewrite Hgs, Hge.
  - apply slice_nonneg; lia.
  - intros x. apply getitem_is_Some.
Qed.

Lemma slice_region_in_bounds_witness :
  ∃ tokenized_start tokenized_end,
    create_mapper ["ACG"; "TTGCA"; "GG"]%string !! Z.to_nat 1 = Some tokenized_start
    ∧ create_mapper ["ACG"; "TTGCA"; "GG"]%string !! Z.to_nat 8 = Some tokenized_end
    ∧ Py.getitem (create_mapper ["ACG"; "TTGCA"; "GG"]%string) 1 = Some tokenized_start
    ∧ Py.getitem (create_mapper ["ACG"; "TTGCA"; "GG"]%string) 8 = Some tokenized_end
    ∧ slice_region ["ACG"; "TTGCA"; "GG"]%string
        (create_mapper ["ACG"; "TTGCA"; "GG"]%string) 1 8
      = Some (Py.slice ["ACG"; "TTGCA"; "GG"]%string tokenized_start tokenized_end)
    ∧ Py.slice ["ACG"; "TTGCA"; "GG"]%string tokenized_start tokenized_end
      = take (Z.to_nat tokenized_end - Z.to_nat tokenized_start)
          (drop (Z.to_nat tokenized_start) ["ACG"; "TTGCA"; "GG"]%string)
    ∧ (∀ x, is_Some (Py.getitem (create_mapper ["ACG"; "TTGCA"; "GG"]%string) x)
            ↔ - Z.of_nat (length (create_mapper ["ACG"; "TTGCA"; "GG"]%string)) ≤ x
              < Z.of_nat (length (create_mapper ["ACG"; "TTGCA"; "GG"]%string))).
Proof.
  apply (slice_region_in_bounds ["ACG"; "TTGCA"; "GG"]%string 1 8);
    vm_compute; split; congruence.
Defined.

(** The loop over a chromosome's motifs: with every boundary in bounds it
    raises nothing and yields one slice per motif, in order. *)
Lemma slice_chromosome_in_bounds (tokenized_chr : list token) (rows : list (Z * Z)) :
  let mapper := create_mapper tokenized_chr in
  Forall (λ row, 0 ≤ row.1 < Z.of_nat (length mapper)
                 ∧ 0 ≤ row.2 < Z.of_nat (length mapper)) rows →
  slice_chromosome tokenized_chr rows
  = Some ((λ row, Py.slice tokenized_chr
                    (default 0 (mapper !! Z.to_nat row.1))
                    (default 0 (mapper !! Z.to_nat row.2))) <$> rows).
Proof.
  intros mapper Hrows. unfold slice_chromosome. fold mapper.
  assert (mapM (Py.getitem mapper) (rows.*1)
          = Some ((λ row, default 0 (mapper !! Z.to_nat row.1)) <$> rows)) as ->.
  { apply mapM_Some. induction Hrows as [|row rows [Hs _] _ IH]; simpl; constructor; [|done].
    rewrite getitem_nonneg by done.
    by destruct (lookup_lt_is_Some_2 mapper (Z.to_nat row.1)) as [? ->]; [lia|]. }
  assert (mapM (Py.getitem mapper) (rows.*2)
          = Some ((λ row, default 0 (mapper !! Z.to_nat row.2)) <$> rows)) as ->.
  { apply mapM_Some. induction Hrows as [|row rows [_ He] _ IH]; simpl; constructor; [|done].
    rewrite getitem_nonneg by done.
    by destruct (lookup_lt_is_Some_2 mapper (Z.to_nat row.2)) as [? ->]; [lia|]. }
  simpl. f_equal. clear Hrows. induction rows as [|row rows IH]; simpl; [done|].
  f_equal. exact IH.
Qed.

End SlicerFacts.

(** ** Negative positions *)

Section NegativeStart.

Import Mapper.

(** C10: the boundary lookup is not guarded against negative positions.
    For every motif whose expanded start is negative but not below
    [-len(mapper)], the lookup raises nothing and returns
    [mapper[len(mapper) + start]], an entry counted from the chromosome's
    end; with the end lookup succeeding too the slicer returns a token list
    rather than an error, and for a window of 1000 nucleotides that begins
    before the chromosome start and ends inside a chromosome of at least
    1000 nucleotides that list is empty. *)
Theorem negative_start_wraps (tokenized_chr : list token) (start : Z) :
  let mapper := create_mapper tokenized_chr in
  - Z.of_nat (length mapper) ≤ start < 0 →
  ∃ tokenized_start,
    mapper !! Z.to_nat (Z.of_nat (length mapper) + start) = Some tokenized_start
    ∧ Py.getitem mapper start = Some tokenized_start
    ∧ (∀ end_ tokenized_end,
         Py.getitem mapper end_ = Some tokenized_end →
         slice_region tokenized_chr mapper start end_
         = Some (Py.slice tokenized_chr tokenized_start tokenized_end))
    ∧ (1000 ≤ Z.of_nat (length mapper) → 0 ≤ start + 1000 →
       slice_region tokenized_chr mapper start (start + 1000) = Some []).
Proof.
  intros mapper Hs.
  destruct (lookup_lt_is_Some_2 mapper
    (Z.to_nat (Z.of_nat (length mapper) + start))) as [ts Hts]; [lia|].
  assert (Py.getitem mapper start = Some ts) as Hgs
    by (by rewrite getitem_negative).
  exists ts. split_and!; try done.
  - intros end_ te Hge. unfold slice_region. by rewrite Hgs, Hge.
  - intros Hlen Hend.
    destruct (lookup_lt_is_Some_2 mapper (Z.to_nat (start + 1000))) as [te Hte]; [lia|].
    unfold slice_region. rewrite Hgs, getitem_nonneg, Hte by lia. simpl.
    f_equal. apply slice_empty.
    pose proof (create_mapper_values tokenized_chr te
      (list_elem_of_lookup_2 _ _ _ Hte)).
    split; [lia|].
    apply (create_mapper_monotone tokenized_chr
      (Z.to_nat (start + 1000)) (Z.to_nat (Z.of_nat (length mapper) + start)));
      [lia|done..].
Qed.

Lemma negative_start_wraps_witness :
  ∃ tokenized_start,
    create_mapper example_chr
      !! Z.to_nat (Z.of_nat (length (create_mapper example_chr)) + -100)
    = Some tokenized_start
    ∧ Py.getitem (create_mapper example_chr) (-100) = Some tokenized_start
    ∧ (∀ end_ tokenized_end,
         Py.getitem (create_mapper example_chr) end_ = Some tokenized_end →
         slice_region example_chr (create_mapper example_chr) (-100) end_
         = Some (Py.slice example_chr tokenized_start tokenized_end))
    ∧ (1000 ≤ Z.of_nat (length (create_mapper example_chr)) →
       0 ≤ -100 + 1000 →
       slice_region example_chr (create_mapper example_chr) (-100) (-100 + 1000)
       = Some []).
Proof.
  apply (negative_start_wraps example_chr (-100)).
  vm_compute. split; congruence.
Defined.

(** A motif centred 400 nucleotides into a chromosome of 1200: the window
    is [-100, 900), the start lookup reads position 1100, and the slice is
    empty. *)
Example negative_start_empty_slice :
  Motif.expand_window 395 406 = (-100, 900)
  ∧ Py.getitem (create_mapper example_chr) (-100) = Some 275
  ∧ Py.getitem (create_mapper example_chr) 900 = Some 225
  ∧ slice_region example_chr (create_mapper example_chr) (-100) 900 = Some [].
Proof. vm_compute. done. Qed.

(** On a chromosome shorter than the window the end lookup is the one that
    raises. *)
Example short_chromosome_end_raises :
  Py.getitem (create_mapper (take 150 example_chr)) (-100) = Some 125
  ∧ slice_region (take 150 example_chr) (create_mapper (take 150 example_chr))
      (-100) 900 = None.
Proof. vm_compute. done. Qed.

End NegativeStart.

(** ** Class labels and the window expansion *)

Section MotifFacts.

Import Motif.

Lemma class_of_placeholder (x : cell) : class_of x = 0 ↔ x = Text ".".
Proof.
  unfold class_of, ne_str. destruct x as [t| |]; simpl; [|done..].
  case_bool_decide; simpl; naive_solver.
Qed.

Lemma class_of_other (x : cell) : x ≠ Text "." → class_of x = 1.
Proof.
  unfold class_of, ne_str. destruct x as [t| |]; simpl; [|done..].
  case_bool_decide; simpl; naive_solver.
Qed.

(** C4: for every row of the annotation table the derived class label is 0
    if and only if the peak column (column 9) is the placeholder string
    ["."], and 1 for every other value of that column. *)
Theorem class_label_placeholder (annotations : list (list cell)) (i : nat)
    (row : list cell) :
  annotations !! i = Some row →
  ∃ label, class_column annotations !! i = Some label
    ∧ label = class_of (column 9 row)
    ∧ (label = 0 ↔ column 9 row = Text ".")
    ∧ (column 9 row ≠ Text "." → label = 1).
Proof.
  intros Hrow. exists (class_of (column 9 row)). split_and!.
  - unfold class_column. by rewrite list_lookup_fmap, Hrow.
  - done.
  - apply class_of_placeholder.
  - apply class_of_other.
Qed.

Lemma class_label_placeholder_witness :
  ∃ label,
    class_column [replicate 9 (Int 7) ++ [Text "."]; replicate 9 (Int 7) ++ [Text "peak12"]]
      !! 1%nat = Some label
    ∧ label = class_of (column 9 (replicate 9 (Int 7) ++ [Text "peak12"]))
    ∧ (label = 0 ↔ column 9 (replicate 9 (Int 7) ++ [Text "peak12"]) = Text ".")
    ∧ (column 9 (replicate 9 (Int 7) ++ [Text "peak12"]) ≠ Text "." → label = 1).
Proof.
  apply (class_label_placeholder
    [replicate 9 (Int 7) ++ [Text "."]; replicate 9 (Int 7) ++ [Text "peak12"]]
    1 (replicate 9 (Int 7) ++ [Text "peak12"])).
  reflexivity.
Defined.

Example class_column_example :
  class_column [replicate 9 (Int 7) ++ [Text "."];
                replicate 9 (Int 7) ++ [Text "peak12"];
                replicate 9 (Int 7) ++ [Int 3];
                replicate 9 (Int 7) ++ [Missing]] = [0; 1; 1; 1].
Proof. reflexivity. Qed.

Lemma wrap64_id (z : Z) : is_int64 z → wrap64 z = z.
Proof.
  unfold is_int64, int64_min, int64_max, wrap64. intros Hz.
  rewrite Z.mod_small; lia.
Qed.

Lemma wrap64_range (z : Z) : is_int64 (wrap64 z).
Proof.
  unfold is_int64, int64_min, int64_max, wrap64.
  pose proof (Z.mod_pos_bound (z + 2 ^ 63) (2 ^ 64)). lia.
Qed.

(** Computed in the columns' own arithmetic the width is 1000 whatever
    wrapped on the way. *)
Lemma expand_window64_width (start end_ : Z) :
  sub64 (expand_window64 start end_).2 (expand_window64 start end_).1 = 1000.
Proof.
  unfold expand_window64. simpl.
  generalize (add64 start (floordiv64 (sub64 end_ start) 2)). intros c.
  unfold sub64, add64, wrap64.
  replace (((c + 500 + 2 ^ 63) `mod` 2 ^ 64 - 2 ^ 63
            - ((c - 500 + 2 ^ 63) `mod` 2 ^ 64 - 2 ^ 63)) + 2 ^ 63)
    with ((c + 500 + 2 ^ 63) `mod` 2 ^ 64
          - (c - 500 + 2 ^ 63) `mod` 2 ^ 64 + 2 ^ 63) by lia.
  rewrite <- Zplus_mod_idemp_l, <- Zminus_mod, Zplus_mod_idemp_l.
  replace (c + 500 + 2 ^ 63 - (c - 500 + 2 ^ 63) + 2 ^ 63) with (1000 + 2 ^ 63) by lia.
  done.
Qed.

Lemma expand_window64_exact (start end_ : Z) :
  0 ≤ start → start ≤ end_ → end_ + 500 ≤ int64_max →
  expand_window64 start end_ = expand_window start end_.
Proof.
  intros H0 Hle Hmax. unfold expand_window64, expand_window.
  unfold int64_max in Hmax.
  assert (0 ≤ (end_ - start) `div` 2 ≤ end_ - start) as Hdiv.
  { split; [apply Z.div_pos; lia|]. apply Z.div_le_upper_bound; lia. }
  assert (∀ z, - 2 ^ 63 ≤ z ≤ 2 ^ 63 - 1 → wrap64 z = z) as Hid
    by (intros z Hz; by apply wrap64_id).
  unfold sub64, add64, floordiv64.
  rewrite (Hid (end_ - start)) by lia.
  rewrite (Hid ((end_ - start) `div` 2)) by lia.
  rewrite (Hid (start + (end_ - start) `div` 2)) by lia.
  by rewrite !Hid by lia.
Qed.

(** C3: for every motif row with [start <= end], after the window
    expansion the width [end - start] is exactly 1000 nucleotides, 500 on
    each side of a center that lies inside the motif.  On the table's
    64-bit columns the width computed there is 1000 as well, and the two
    computations agree for coordinates that are non-negative and at least
    500 below the largest 64-bit value. *)
Theorem expand_window_width (start end_ : Z) :
  start ≤ end_ →
  let center := start + (end_ - start) `div` 2 in
  (expand_window start end_).2 - (expand_window start end_).1 = 1000
  ∧ expand_window start end_ = (center - 500, center + 500)
  ∧ start ≤ center ≤ end_
  ∧ sub64 (expand_window64 start end_).2 (expand_window64 start end_).1 = 1000
  ∧ (0 ≤ start → end_ + 500 ≤ int64_max →
     expand_window64 start end_ = expand_window start end_).
Proof.
  intros Hle center. split_and!.
  - unfold expand_window. simpl. lia.
  - done.
  - unfold center.
    assert (0 ≤ (end_ - start) `div` 2) by (apply Z.div_pos; lia). lia.
  - unfold center.
    assert ((end_ - start) `div` 2 ≤ end_ - start)
      by (apply Z.div_le_upper_bound; lia). lia.
  - apply expand_window64_width.
  - intros. by apply expand_window64_exact.
Qed.

Lemma expand_window_width_witness :
  (expand_window 10000 10019).2 - (expand_window 10000 10019).1 = 1000
  ∧ expand_window 10000 10019
    = (10000 + (10019 - 10000) `div` 2 - 500, 10000 + (10019 - 10000) `div` 2 + 500)
  ∧ 10000 ≤ 10000 + (10019 - 10000) `div` 2 ≤ 10019
  ∧ sub64 (expand_window64 10000 10019).2 (expand_window64 10000 10019).1 = 1000
  ∧ (0 ≤ 10000 → 10019 + 500 ≤ int64_max →
     expand_window64 10000 10019 = expand_window 10000 10019).
Proof.
  apply (expand_window_width 10000 10019). lia.
Defined.

Example expand_window_example : expand_window 10000 10019 = (9509, 10509).
Proof. reflexivity. Qed.

End MotifFacts.

Example expand_window64_wraps :
  Motif.expand_window64 Motif.int64_max Motif.int64_max
  = (Motif.int64_max - 500, Motif.int64_min + 499).
Proof. reflexivity. Qed.

(** ** The split *)

Section SplitSizes.

Import Split.

(** [round] is within one half of its argument. *)
Lemma py_round_near (q : Q) :
  - Z.pos (Qden q) ≤ 2 * (Z.pos (Qden q) * py_round q - Qnum q) ≤ Z.pos (Qden q).
Proof.
  unfold py_round.
  pose proof (Z.div_mod (Qnum q) (Z.pos (Qden q)) ltac:(lia)) as Hdm.
  pose proof (Z.mod_pos_bound (Qnum q) (Z.pos (Qden q)) ltac:(lia)) as Hr.
  repeat case_bool_decide; [lia|lia|].
  destruct (Z.even _); lia.
Qed.

Lemma sample_size_train (n : nat) :
  (sample_size (8 # 10) n ≤ n)%nat
  ∧ -2 ≤ 5 * Z.of_nat (sample_size (8 # 10) n) - 4 * Z.of_nat n ≤ 2.
Proof.
  unfold sample_size.
  pose proof (py_round_near ((8 # 10) * inject_Z (Z.of_nat n))) as Hr.
  simpl in Hr.
  set (k := py_round ((8 # 10) * inject_Z (Z.of_nat n))) in *.
  lia.
Qed.

Lemma sample_size_val (n : nat) :
  (sample_size (5 # 10) n ≤ n)%nat
  ∧ -1 ≤ 2 * Z.of_nat (sample_size (5 # 10) n) - Z.of_nat n ≤ 1.
Proof.
  unfold sample_size.
  pose proof (py_round_near ((5 # 10) * inject_Z (Z.of_nat n))) as Hr.
  simpl in Hr.
  set (k := py_round ((5 # 10) * inject_Z (Z.of_nat n))) in *.
  lia.
Qed.

End SplitSizes.

Section SplitFacts.

Import Split.

Context {R : Type}.
Implicit Types (df : @frame R) (picks : list nat).

(** Unique labels: a label names one row. *)
Lemma unique_label_row df (row row' : Z * R) :
  NoDup (index_of df) → row ∈ df → row' ∈ df → row.1 = row'.1 → row = row'.
Proof.
  intros Hnd [i Hi]%list_elem_of_lookup [j Hj]%list_elem_of_lookup Heq.
  assert (i = j) as ->; [|congruence].
  apply (NoDup_lookup (index_of df) i j row.1 Hnd); unfold index_of;
    rewrite list_lookup_fmap; [by rewrite Hi|by rewrite Hj, Heq].
Qed.

(** The rows at distinct positions are distinct rows. *)
Lemma rows_at_NoDup df picks :
  NoDup df → NoDup picks → NoDup (omap (λ i, df !! i) picks).
Proof.
  intros Hdf. induction 1 as [|i picks Hi Hp IH]; simpl; [constructor|].
  destruct (df !! i) as [row|] eqn:Hrow; [|done].
  constructor; [|done].
  rewrite list_elem_of_omap. intros (j & Hj & Hrow').
  by rewrite (NoDup_lookup df i j row Hdf Hrow Hrow') in Hi.
Qed.

Lemma rows_at_length df picks :
  Forall (λ i, (i < length df)%nat) picks →
  length (omap (λ i, df !! i) picks) = length picks.
Proof.
  induction 1 as [|i picks Hi Hp IH]; simpl; [done|].
  destruct (df !! i) as [row|] eqn:Hrow.
  - simpl. by rewrite <- IH.
  - apply lookup_ge_None in Hrow. lia.
Qed.

(** Drawing rows and dropping their labels partitions the frame. *)
Lemma draw_and_drop df picks :
  NoDup (index_of df) → NoDup picks →
  let drawn := omap (λ i, df !! i) picks in
  ∃ rest, drop_rows (index_of drawn) df = Some rest ∧ drawn ++ rest ≡ₚ df.
Proof.
  intros Hlab Hpicks drawn.
  assert (NoDup df) as Hdf by (by apply (NoDup_fmap_1 fst)).
  assert (∀ row, row ∈ drawn → row ∈ df) as Hsub.
  { intros row (i & _ & Hi)%list_elem_of_omap. by eapply list_elem_of_lookup_2. }
  exists (filter (λ row, row.1 ∉ index_of drawn) df). split.
  - unfold drop_rows. rewrite bool_decide_eq_true_2; [done|].
    apply Forall_forall. intros l (row & -> & Hrow)%list_elem_of_fmap.
    apply list_elem_of_fmap_2. by apply Hsub.
  - apply NoDup_Permutation; [|done|].
    + apply NoDup_app. split_and!.
      * by apply rows_at_NoDup.
      * intros row Hrow [Hn _]%list_elem_of_filter. apply Hn.
        by apply list_elem_of_fmap_2.
      * by apply NoDup_filter.
    + intros row. rewrite elem_of_app, list_elem_of_filter. split.
      * intros [?|[_ ?]]; [by apply Hsub|done].
      * intros Hrow. destruct (decide (row.1 ∈ index_of drawn)) as [Hin|Hout].
        -- left. apply list_elem_of_fmap in Hin as (row' & Heq & Hrow').
           by rewrite (unique_label_row df row row' Hlab Hrow (Hsub _ Hrow') Heq).
        -- by right.
Qed.

(** The dataset takes its index from the annotation table, whose rows were
    filtered and sorted on the way: the labels are a rearrangement of some
    of the table's row numbers, hence distinct. *)
Lemma pipeline_index_NoDup (n : nat) (keep : Z → bool) (index : list Z) :
  index ≡ₚ filter (λ l, keep l = true) (range_index n) → NoDup index.
Proof.
  intros ->. apply NoDup_filter. unfold range_index.
  apply NoDup_fmap_2; [apply _|apply NoDup_seq].
Qed.

Section WithChoice.

Variable choice : nat → nat → list nat.

(** What the generator guarantees: [size] distinct positions below [n]. *)
Hypothesis choice_valid : ∀ n size, (size ≤ n)%nat →
  length (choice n size) = size
  ∧ NoDup (choice n size)
  ∧ Forall (λ i, (i < n)%nat) (choice n size).

Lemma sample_partition (frac : Q) df :
  NoDup (index_of df) → (sample_size frac (length df) ≤ length df)%nat →
  ∃ rest, drop_rows (index_of (sample choice frac df)) df = Some rest
    ∧ sample choice frac df ++ rest ≡ₚ df
    ∧ length (sample choice frac df) = sample_size frac (length df)
    ∧ NoDup (index_of rest).
Proof.
  intros Hlab Hsize.
  destruct (choice_valid _ _ Hsize) as (Hlen & Hnd & Hlt).
  destruct (draw_and_drop df _ Hlab Hnd) as (rest & Hdrop & Hperm).
  exists rest. split_and!; try done.
  - unfold sample. by rewrite rows_at_length.
  - assert (NoDup (index_of (sample choice frac df ++ rest))) as Hall.
    { unfold index_of. unfold sample. by rewrite Hperm. }
    unfold index_of in Hall. rewrite fmap_app in Hall.
    by apply NoDup_app in Hall as (_ & _ & ?).
Qed.

(** C5: for every dataset (its index labels distinct, as the table's row
    numbers are) the split raises nothing and yields three frames that
    together hold exactly the rows of the dataset, each once: their labels
    are pairwise disjoint, their sizes sum to the sample count, and the
    sizes are four fifths, one tenth and one tenth of it up to rounding
    (within 2/5 of a row for train, 7/10 for validation and test). *)
Theorem split_partition df :
  NoDup (index_of df) →
  ∃ train_data val_data test_data,
    split choice df = Some (train_data, val_data, test_data)
    ∧ train_data ++ val_data ++ test_data ≡ₚ df
    ∧ NoDup (index_of train_data ++ index_of val_data ++ index_of test_data)
    ∧ (length train_data + length val_data + length test_data = length df)%nat
    ∧ length train_data = sample_size (8 # 10) (length df)
    ∧ length val_data = sample_size (5 # 10) (length df - length train_data)
    ∧ -2 ≤ 5 * Z.of_nat (length train_data) - 4 * Z.of_nat (length df) ≤ 2
    ∧ -7 ≤ 10 * Z.of_nat (length val_data) - Z.of_nat (length df) ≤ 7
    ∧ -7 ≤ 10 * Z.of_nat (length test_data) - Z.of_nat (length df) ≤ 7.
Proof.
  intros Hlab.
  pose proof (sample_size_train (length df)) as [Hle1 Hb1].
  destruct (sample_partition (8 # 10) df Hlab Hle1)
    as (rest & Hdrop1 & Hperm1 & Hlen1 & Hlab1).
  pose proof (sample_size_val (length rest)) as [Hle2 Hb2].
  destruct (sample_partition (5 # 10) rest Hlab1 Hle2)
    as (test & Hdrop2 & Hperm2 & Hlen2 & Hlab2).
  exists (sample choice (8 # 10) df), (sample choice (5 # 10) rest), test.
  assert (sample choice (8 # 10) df ++ sample choice (5 # 10) rest ++ test ≡ₚ df)
    as Hperm by (by rewrite Hperm2).
  pose proof (Permutation_length Hperm1) as Hl1.
  pose proof (Permutation_length Hperm2) as Hl2.
  rewrite length_app in Hl1, Hl2.
  split; [unfold split; rewrite Hdrop1; simpl; by rewrite Hdrop2|].
  split; [done|].
  split; [unfold index_of; rewrite <- !fmap_app; by rewrite Hperm|].
  split; [lia|].
  split; [done|].
  split; [rewrite Hlen2; f_equal; lia|].
  lia.
Qed.

End WithChoice.

End SplitFacts.

(** The split of ten rows when the generator draws the leading positions. *)
Lemma split_partition_witness :
  ∃ train_data val_data test_data,
    Split.split Split.leading_choice Split.ten_rows
    = Some (train_data, val_data, test_data)
    ∧ train_data ++ val_data ++ test_data ≡ₚ Split.ten_rows
    ∧ NoDup (Split.index_of train_data ++ Split.index_of val_data
             ++ Split.index_of test_data)
    ∧ (length train_data + length val_data + length test_data
       = length Split.ten_rows)%nat
    ∧ length train_data = Split.sample_size (8 # 10) (length Split.ten_rows)
    ∧ length val_data
      = Split.sample_size (5 # 10) (length Split.ten_rows - length train_data)
    ∧ -2 ≤ 5 * Z.of_nat (length train_data) - 4 * Z.of_nat (length Split.ten_rows) ≤ 2
    ∧ -7 ≤ 10 * Z.of_nat (length val_data) - Z.of_nat (length Split.ten_rows) ≤ 7
    ∧ -7 ≤ 10 * Z.of_nat (length test_data) - Z.of_nat (length Split.ten_rows) ≤ 7.
Proof.
  apply (split_partition Split.leading_choice).
  - intros n size Hle. unfold Split.leading_choice. split_and!.
    + apply length_seq.
    + apply NoDup_seq.
    + apply Forall_forall. intros i Hi%elem_of_seq. lia.
  - vm_compute. repeat (constructor; [rewrite ?elem_of_cons, elem_of_nil; lia|]).
    constructor.
Defined.

Example split_ten_rows :
  Split.split Split.leading_choice Split.ten_rows
  = Some ((λ i, (Z.of_nat i + 100, i)) <$> seq 0 8, [(108, 8%nat)], [(109, 9%nat)]).
Proof. vm_compute. reflexivity. Qed.

(** ** Floating-point comparison *)

Section FloatOrder.

Import Training.

Lemma flt_Num (a b : Q) : flt (Num a) (Num b) = true ↔ (a < b)%Q.
Proof.
  simpl. rewrite negb_true_iff, <- not_true_iff_false, Qle_bool_iff.
  split; [apply Qnot_le_lt|apply Qlt_not_le].
Qed.

Lemma flt_irrefl (x : float) : flt x x = false.
Proof.
  destruct x as [a| | |]; try done.
  apply not_true_iff_false. rewrite flt_Num. apply Qlt_irrefl.
Qed.

Lemma flt_trans (x y z : float) :
  flt x y = true → flt y z = true → flt x z = true.
Proof.
  destruct x as [a| | |], y as [b| | |], z as [c| | |]; try done.
  rewrite !flt_Num. apply Qlt_trans.
Qed.

Lemma flt_asym (x y : float) : flt x y = true → flt y x = false.
Proof.
  intros Hxy. apply not_true_iff_false. intros Hyx.
  pose proof (flt_trans x y x Hxy Hyx) as Hxx. by rewrite flt_irrefl in Hxx.
Qed.

(** Below a value that [z] is not below, hence below [z], NaN apart. *)
Lemma flt_below_bound (x y z : float) :
  is_nan z = false → flt x y = true → flt z y = false → flt x z = true.
Proof.
  destruct x as [a| | |], y as [b| | |], z as [c| | |]; try done.
  rewrite !flt_Num. intros _ Hab Hcb.
  apply not_true_iff_false in Hcb. rewrite flt_Num in Hcb.
  apply Qnot_lt_le in Hcb. by eapply Qlt_le_trans.
Qed.

End FloatOrder.

(** ** The epoch loop *)

Section TrainingFacts.

Import Training.

Lemma flt_not_nan (x y : float) :
  flt x y = true → is_nan x = false ∧ is_nan y = false.
Proof. by destruct x, y. Qed.

Lemma train_invariant_holds (baseline : float) (val_losses : list float) :
  train_invariant baseline val_losses (length val_losses) (train baseline val_losses).
Proof.
  unfold train.
  apply (for_range_invariant (train_invariant baseline val_losses)).
  - split_and!; simpl.
    + rewrite take_0. apply list_elem_of_singleton. done.
    + rewrite take_0. intros p ->%list_elem_of_singleton. apply flt_irrefl.
    + done.
    + intros e. rewrite elem_of_nil. split; [done|]. intros [? _]. lia.
  - intros k st Hk (Hbest & Hmin & Hnan & Hsaved).
    destruct (lookup_lt_is_Some_2 val_losses k Hk) as [v Hv].
    assert (∀ p, p ∈ baseline :: take (Datatypes.S k) val_losses
                 ↔ p ∈ baseline :: take k val_losses ∨ p = v) as Hprev.
    { intros p. rewrite (take_S_r _ _ _ Hv), !elem_of_cons, elem_of_app,
        list_elem_of_singleton. tauto. }
    unfold epoch_step. rewrite Hv. simpl.
    destruct (flt v (best_val_loss st)) eqn:Hlt; simpl.
    + destruct (flt_not_nan _ _ Hlt) as [Hv_num Hbest_num].
      split_and!.
      * apply Hprev. by right.
      * intros p [Hp| ->]%Hprev; [|apply flt_irrefl].
        apply not_true_iff_false. intros Hpv.
        pose proof (flt_trans _ _ _ Hpv Hlt) as Hpb. by rewrite Hmin in Hpb.
      * simpl. by rewrite Hv_num, <- Hnan.
      * intros e. simpl. unfold Py.append.
        rewrite elem_of_app, list_elem_of_singleton, Hsaved. split.
        -- intros [(He & Hb & Hp)| ->]; [split_and!; [lia|done..]|].
           rewrite Hv. simpl. split_and!; [lia|by rewrite <- Hnan|].
           intros p Hp Hp_num.
           apply (flt_below_bound v (best_val_loss st) p); auto.
        -- intros (He & Hb & Hp). destruct (decide (e = k)) as [->|]; [by right|].
           left. split_and!; [lia|done..].
    + split_and!.
      * apply Hprev. by left.
      * intros p [Hp| ->]%Hprev; [by apply Hmin|done].
      * done.
      * intros e. rewrite Hsaved. split.
        -- intros (He & Hb & Hp). split_and!; [lia|done..].
        -- intros (He & Hb & Hp). split_and!; [|done..].
           destruct (decide (e = k)) as [->|]; [|lia].
           rewrite Hv in Hp. simpl in Hp.
           rewrite (Hp _ Hbest) in Hlt; [done|]. by rewrite Hnan.
Qed.

(** C7, as amended: the output directory is written in an epoch if and
    only if the baseline measured before training is a number and that
    epoch's validation loss is strictly lower than every validation loss
    observed before it that is a number (a NaN compares false with
    everything, is never saved and never becomes the best loss).  When no
    earlier epoch's loss is NaN this is the claim's own condition: strictly
    lower than every previously observed loss, the baseline included.  In
    either form nothing is saved in an epoch whose loss does not improve. *)
Theorem saved_iff_improved (baseline : float) (val_losses : list float)
    (epoch : nat) (val_loss : float) :
  val_losses !! epoch = Some val_loss →
  (epoch ∈ saved (train baseline val_losses)
   ↔ is_nan baseline = false
     ∧ ∀ previous, previous ∈ baseline :: take epoch val_losses →
                   is_nan previous = false → flt val_loss previous = true)
  ∧ (Forall (λ x, is_nan x = false) (take epoch val_losses) →
     (epoch ∈ saved (train baseline val_losses)
      ↔ ∀ previous, previous ∈ baseline :: take epoch val_losses →
                    flt val_loss previous = true)).
Proof.
  intros Hv.
  destruct (train_invariant_holds baseline val_losses) as (_ & _ & _ & Hsaved).
  assert (epoch ∈ saved (train baseline val_losses)
          ↔ is_nan baseline = false
            ∧ ∀ previous, previous ∈ baseline :: take epoch val_losses →
                          is_nan previous = false → flt val_loss previous = true)
    as Hiff.
  { rewrite Hsaved, Hv. simpl. split; [by intros (_ & ? & ?)|].
    intros [Hb Hp]. split_and!; [|done..]. by eapply lookup_lt_Some. }
  split; [exact Hiff|]. intros Hnum. rewrite Hiff. split.
  - intros [Hb Hp] previous Hprev. apply Hp; [done|].
    apply elem_of_cons in Hprev as [->|Hprev]; [done|].
    rewrite Forall_forall in Hnum. by apply Hnum.
  - intros Hp. split; [|by intros previous Hprev _; apply Hp].
    apply (flt_not_nan val_loss baseline). apply Hp. by left.
Qed.

Lemma saved_iff_improved_witness :
  (1%nat ∈ saved (train (Num (7 # 10)) [Num (8 # 10); Num (6 # 10); Num (6 # 10); Num (5 # 10)])
   ↔ is_nan (Num (7 # 10)) = false
     ∧ ∀ previous,
         previous ∈ Num (7 # 10)
           :: take 1 [Num (8 # 10); Num (6 # 10); Num (6 # 10); Num (5 # 10)] →
         is_nan previous = false → flt (Num (6 # 10)) previous = true)
  ∧ (Forall (λ x, is_nan x = false)
       (take 1 [Num (8 # 10); Num (6 # 10); Num (6 # 10); Num (5 # 10)]) →
     (1%nat ∈ saved (train (Num (7 # 10))
                [Num (8 # 10); Num (6 # 10); Num (6 # 10); Num (5 # 10)])
      ↔ ∀ previous,
          previous ∈ Num (7 # 10)
            :: take 1 [Num (8 # 10); Num (6 # 10); Num (6 # 10); Num (5 # 10)] →
          flt (Num (6 # 10)) previous = true)).
Proof.
  apply (saved_iff_improved (Num (7 # 10))
    [Num (8 # 10); Num (6 # 10); Num (6 # 10); Num (5 # 10)] 1 (Num (6 # 10))).
  reflexivity.
Defined.

(** The claim as first stated fails on a run with a NaN loss: after a
    baseline of 1 and a first epoch whose loss is NaN, the second epoch's
    loss 0.5 is saved, though it does not compare lower than the NaN. *)
Lemma saved_iff_improved_counterexample :
  1%nat ∈ saved (train (Num 1) [NaN; Num (5 # 10)])
  ∧ ¬ (∀ previous, previous ∈ Num 1 :: take 1 [NaN; Num (5 # 10)] →
                   flt (Num (5 # 10)) previous = true).
Proof.
  split.
  - change (saved (train (Num 1) [NaN; Num (5 # 10)])) with [1%nat].
    by apply list_elem_of_singleton.
  - intros Hall. specialize (Hall NaN). simpl in Hall.
    discriminate Hall. right. by left.
Qed.

(** Four epochs: the loss rises, improves, stays, improves. *)
Example train_four_epochs :
  train (Num (7 # 10)) [Num (8 # 10); Num (6 # 10); Num (6 # 10); Num (5 # 10)]
  = {| best_val_loss := Num (5 # 10); saved := [1; 3]%nat |}.
Proof. reflexivity. Qed.

(** A NaN loss is never saved and never becomes the best loss, so a later
    epoch is compared with the losses that are numbers. *)
Example train_nan_epoch :
  train (Num 1) [NaN; Num (5 # 10)]
  = {| best_val_loss := Num (5 # 10); saved := [1]%nat |}.
Proof. reflexivity. Qed.

End TrainingFacts.

(** ** The prediction threshold *)

Section ThresholdFacts.

Import Training.

(** A loop that overwrites each position with a function of what it holds
    there maps that function over the list. *)
Lemma in_place_map {A : Type} (f : A → A) (d : A) (l : list A) :
  Py.for_range (length l) (λ j acc, <[j := f (default d (acc !! j))]> acc) l
  = f <$> l.
Proof.
  assert (Py.for_range (length l) (λ j acc, <[j := f (default d (acc !! j))]> acc) l
          = (f <$> take (length l) l) ++ drop (length l) l) as ->.
  { apply (for_range_invariant (λ k acc, acc = (f <$> take k l) ++ drop k l)).
    - by rewrite take_0, drop_0.
    - intros j acc Hj ->.
      destruct (lookup_lt_is_Some_2 l j Hj) as [x Hx].
      assert (length (f <$> take j l) = j) as Hlen
        by (rewrite length_fmap, length_take; lia).
      rewrite lookup_app_r, Hlen, Nat.sub_diag, lookup_drop, Nat.add_0_r, Hx by lia.
      simpl. rewrite insert_app_r_alt, Hlen, Nat.sub_diag by lia.
      rewrite (drop_S _ _ _ Hx). simpl.
      rewrite (take_S_r _ _ _ Hx), fmap_app, <- (assoc_L (++)). done. }
  by rewrite firstn_all, drop_all, app_nil_r.
Qed.

Lemma harden_row_map (probs_i : list float) :
  harden_row probs_i = threshold <$> probs_i.
Proof. apply in_place_map. Qed.

Lemma harden_map (probs : list (list float)) :
  harden probs = (λ probs_i : list float, threshold <$> probs_i) <$> probs.
Proof.
  unfold harden. rewrite (in_place_map harden_row []).
  apply list_fmap_ext. intros _ probs_i _. apply harden_row_map.
Qed.

(** Appending one result per batch collects the results in batch order. *)
Lemma collect_loop {A B : Type} (f : A → B) (d : A) (l : list A) :
  Py.for_range (length l) (λ b acc, Py.append acc (f (default d (l !! b)))) []
  = f <$> l.
Proof.
  assert (Py.for_range (length l) (λ b acc, Py.append acc (f (default d (l !! b)))) []
          = f <$> take (length l) l) as ->; [|by rewrite firstn_all].
  apply (for_range_invariant (λ k acc, acc = f <$> take k l)).
  - by rewrite take_0.
  - intros b acc Hb ->.
    destruct (lookup_lt_is_Some_2 l b Hb) as [x Hx].
    rewrite Hx, (take_S_r _ _ _ Hx), fmap_app. done.
Qed.

Lemma val_loop_preds_map (batches : list (list (list float))) :
  val_loop_preds batches = harden <$> batches.
Proof. apply collect_loop. Qed.

Lemma test_loop_preds_map (batches : list (list (list float))) :
  test_loop_preds batches = harden <$> batches.
Proof. apply collect_loop. Qed.

Lemma threshold_below (p : float) :
  flt p (Num (1 # 2)) = true → threshold p = Num 0.
Proof.
  intros Hp. unfold threshold, fgt. by rewrite (flt_asym _ _ Hp).
Qed.

Lemma threshold_above (p : float) :
  fgt p (Num (1 # 2)) = true → threshold p = Num 1.
Proof. intros Hp. unfold threshold. by rewrite Hp. Qed.

(** C8: in the validation loop and in the test loop every sigmoid output,
    of every sample of every batch, becomes a hard prediction by the 0.5
    threshold: 0 when the probability is lower than 0.5 and 1 when it is
    higher. *)
Theorem threshold_every_element (batches : list (list (list float)))
    (b i j : nat) (probs : list (list float)) (probs_i : list float) (p : float) :
  batches !! b = Some probs → probs !! i = Some probs_i → probs_i !! j = Some p →
  ∃ pred,
    element (val_loop_preds batches) b i j = Some pred
    ∧ element (test_loop_preds batches) b i j = Some pred
    ∧ pred = threshold p
    ∧ (flt p (Num (1 # 2)) = true → pred = Num 0)
    ∧ (fgt p (Num (1 # 2)) = true → pred = Num 1).
Proof.
  intros Hb Hi Hj. exists (threshold p).
  assert (element (harden <$> batches) b i j = Some (threshold p)) as Hpred.
  { unfold element. rewrite list_lookup_fmap, Hb. simpl.
    rewrite harden_map, list_lookup_fmap, Hi. simpl.
    by rewrite list_lookup_fmap, Hj. }
  split_and!.
  - by rewrite val_loop_preds_map.
  - by rewrite test_loop_preds_map.
  - done.
  - apply threshold_below.
  - apply threshold_above.
Qed.

Lemma threshold_every_element_witness :
  ∃ pred,
    element (val_loop_preds
      [[[Num (3 # 10); Num (9 # 10)]; [Num (1 # 2); Num (51 # 100)]]]) 0 1 1 = Some pred
    ∧ element (test_loop_preds
      [[[Num (3 # 10); Num (9 # 10)]; [Num (1 # 2); Num (51 # 100)]]]) 0 1 1 = Some pred
    ∧ pred = threshold (Num (51 # 100))
    ∧ (flt (Num (51 # 100)) (Num (1 # 2)) = true → pred = Num 0)
    ∧ (fgt (Num (51 # 100)) (Num (1 # 2)) = true → pred = Num 1).
Proof.
  apply (threshold_every_element
    [[[Num (3 # 10); Num (9 # 10)]; [Num (1 # 2); Num (51 # 100)]]]
    0 1 1 [[Num (3 # 10); Num (9 # 10)]; [Num (1 # 2); Num (51 # 100)]]
    [Num (1 # 2); Num (51 # 100)]); reflexivity.
Defined.

(** One batch of two samples; a probability of exactly 0.5 and a NaN are
    not higher than 0.5 and become 0. *)
Example val_loop_preds_example :
  val_loop_preds [[[Num (3 # 10); Num (9 # 10)]; [Num (1 # 2); NaN]]]
  = [[[Num 0; Num 1]; [Num 0; Num 0]]].
Proof. reflexivity. Qed.

End ThresholdFacts.

(** ** The dataset layer *)

Section EncodingFacts.

Import Encoding.

Variable vocab : string → option Z.
Variables cls_id sep_id pad_id unk_id mask_id : Z.

Abbreviation special := (all_special_ids cls_id sep_id pad_id unk_id mask_id).
Abbreviation to_ids := (convert_tokens_to_ids vocab unk_id).
Abbreviation strip := (strip_special cls_id sep_id pad_id unk_id mask_id).
Abbreviation encode := (encode_plus vocab cls_id sep_id pad_id unk_id).

Lemma filter_all {A : Type} (P : A → Prop) `{∀ x, Decision (P x)} (l : list A) :
  Forall P l → filter P l = l.
Proof.
  induction 1 as [|x l Hx _ IH]; [done|].
  by rewrite filter_cons_True, IH.
Qed.

Lemma filter_none {A : Type} (P : A → Prop) `{∀ x, Decision (P x)} (l : list A) :
  Forall (λ x, ¬ P x) l → filter P l = [].
Proof.
  induction 1 as [|x l Hx _ IH]; [done|].
  by rewrite filter_cons_False.
Qed.

(** The ids of ordinary tokens are not special. *)
Lemma ordinary_ids (seq : list string) :
  Forall (ordinary vocab cls_id sep_id pad_id unk_id mask_id) seq →
  Forall (λ i, i ∉ special) (to_ids seq).
Proof.
  intros Hseq. unfold convert_tokens_to_ids. apply Forall_fmap.
  eapply Forall_impl; [exact Hseq|]. intros t (i & Hi & Hn). simpl.
  by rewrite Hi.
Qed.

(** What the encoding holds: the boundary tokens around the ids that
    survive truncation, then the padding. *)
Lemma encode_plus_shape (seq : list string) (max_length : nat) :
  seq ≠ [] →
  let kept := truncate (to_ids seq) max_length in
  let padding := (max_length - (length kept + 2))%nat in
  encode seq max_length
  = Some ([cls_id] ++ kept ++ [sep_id] ++ replicate padding pad_id,
          replicate (length kept + 2) 1 ++ replicate padding 0).
Proof.
  intros Hseq kept padding. unfold encode_plus.
  destruct seq as [|t seq]; [done|]. fold kept.
  assert (length ([cls_id] ++ kept ++ [sep_id]) = (length kept + 2)%nat) as ->
    by (simpl; rewrite length_app; simpl; lia).
  by rewrite <- !(assoc_L (++)).
Qed.

(** With room for at least one id, truncation keeps the leading
    [max_length - 2] ids. *)
Lemma truncate_take (ids : list Z) (max_length : nat) :
  ids ≠ [] → (3 ≤ max_length)%nat →
  truncate ids max_length = take (max_length - 2) ids.
Proof.
  intros Hne Hmax. unfold truncate.
  assert (0 < length ids)%nat by (destruct ids; simpl; [done|lia]).
  rewrite bool_decide_eq_true_2 by lia.
  destruct (decide (length ids + 2 ≤ max_length)%nat).
  - by rewrite !take_ge by lia.
  - f_equal. lia.
Qed.

Lemma truncate_fits (ids : list Z) (max_length : nat) :
  (length ids + 2 ≤ max_length)%nat → truncate ids max_length = ids.
Proof.
  intros Hfit. unfold truncate. case_bool_decide; [|done].
  apply take_ge. lia.
Qed.

(** Stripping removes the boundary tokens and the padding, and of the ids
    between them those that are special ids themselves. *)
Lemma strip_encoding (kept : list Z) (padding : nat) :
  strip ([cls_id] ++ kept ++ [sep_id] ++ replicate padding pad_id) = strip kept.
Proof.
  unfold strip_special. rewrite !filter_app.
  rewrite (filter_none _ [cls_id]), (filter_none _ [sep_id]),
    (filter_none _ (replicate padding pad_id)).
  - simpl. by rewrite app_nil_r.
  - apply Forall_replicate. unfold all_special_ids. intros Hn. apply Hn.
    rewrite !elem_of_cons. tauto.
  - repeat constructor. unfold all_special_ids. intros Hn. apply Hn.
    rewrite !elem_of_cons. tauto.
  - repeat constructor. unfold all_special_ids. intros Hn. apply Hn.
    rewrite !elem_of_cons. tauto.
Qed.

Lemma filter_id_iff {A : Type} (P : A → Prop) `{∀ x, Decision (P x)} (l : list A) :
  filter P l = l ↔ Forall P l.
Proof.
  split; [|apply filter_all]. intros Heq. apply Forall_forall. intros x Hx.
  rewrite <- Heq in Hx. by apply list_elem_of_filter in Hx as [? _].
Qed.

(** C9, as amended: for every token sequence the dataset layer accepts
    (any sequence that is not empty), encoding it and then stripping the
    special tokens recovers the original token ids, less those removed by
    truncation, if and only if none of the surviving ids is itself a special
    id; this is so whenever every token is a vocabulary entry whose id is
    not a special one.  The surviving ids stand in order after the opening
    boundary token; they are the leading [max_length - 2] ids when
    [max_length] is at least 3, in which case the encoding has exactly the
    fixed length. *)
Theorem encode_strip_round_trip (self : GroverDataSet) (idx : Z)
    (seq : list string) (label : list Z) :
  Py.getitem (sequences self) idx = Some seq →
  Py.getitem (y self) idx = Some label →
  seq ≠ [] →
  ∃ ids attention_masks,
    getitem vocab cls_id sep_id pad_id unk_id self idx
    = Some (ids, label, attention_masks, idx)
    ∧ (strip ids = truncate (to_ids seq) (max_length self)
       ↔ Forall (λ i, i ∉ special) (truncate (to_ids seq) (max_length self)))
    ∧ (Forall (ordinary vocab cls_id sep_id pad_id unk_id mask_id) seq →
       strip ids = truncate (to_ids seq) (max_length self))
    ∧ (∀ k c, truncate (to_ids seq) (max_length self) !! k = Some c →
              ids !! Datatypes.S k = Some c)
    ∧ ((3 ≤ max_length self)%nat →
       truncate (to_ids seq) (max_length self)
       = take (max_length self - 2) (to_ids seq)
       ∧ length ids = max_length self)
    ∧ ((length seq + 2 ≤ max_length self)%nat →
       truncate (to_ids seq) (max_length self) = to_ids seq).
Proof.
  intros Hseq Hlabel Hne.
  pose proof (encode_plus_shape seq (max_length self) Hne) as Henc.
  simpl in Henc.
  set (kept := truncate (to_ids seq) (max_length self)) in *.
  set (padding := (max_length self - (length kept + 2))%nat) in *.
  assert (to_ids seq ≠ []) as Hids
    by (destruct seq; [done|]; unfold convert_tokens_to_ids; by rewrite fmap_cons).
  assert (length (to_ids seq) = length seq) as Hlen
    by (unfold convert_tokens_to_ids; by rewrite length_fmap).
  assert (strip (cls_id :: kept ++ sep_id :: replicate padding pad_id) = strip kept)
    as Hstrip by apply (strip_encoding kept padding).
  eexists _, _. split_and!.
  - unfold getitem. rewrite Hseq. simpl. rewrite Henc. simpl. by rewrite Hlabel.
  - rewrite Hstrip. apply filter_id_iff.
  - intros Hord. rewrite Hstrip. apply filter_all.
    assert (Forall (λ i, i ∉ special) (to_ids seq)) as Hall by (by apply ordinary_ids).
    unfold kept, truncate. case_bool_decide; [by apply Forall_take|done].
  - intros k c Hk. simpl. rewrite lookup_app_l by (by eapply lookup_lt_Some). done.
  - intros Hmax. unfold kept. rewrite truncate_take by done. split; [done|].
    simpl. rewrite length_app. simpl. rewrite length_replicate.
    unfold padding, kept. rewrite truncate_take by done.
    rewrite length_take. lia.
  - intros Hfit. apply truncate_fits. lia.
Qed.

End EncodingFacts.

Lemma encode_strip_round_trip_witness :
  ∃ ids attention_masks,
    Encoding.getitem Encoding.example_vocab 2 3 0 1 Encoding.example_dataset 1
    = Some (ids, [0; 1], attention_masks, 1)
    ∧ (Encoding.strip_special 2 3 0 1 4 ids
       = Encoding.truncate
           (Encoding.convert_tokens_to_ids Encoding.example_vocab 1
              ["GG"; "ACG"; "ACG"; "TTGCA"; "GG"]%string)
           (Encoding.max_length Encoding.example_dataset)
       ↔ Forall (λ i, i ∉ Encoding.all_special_ids 2 3 0 1 4)
           (Encoding.truncate
              (Encoding.convert_tokens_to_ids Encoding.example_vocab 1
                 ["GG"; "ACG"; "ACG"; "TTGCA"; "GG"]%string)
              (Encoding.max_length Encoding.example_dataset)))
    ∧ (Forall (Encoding.ordinary Encoding.example_vocab 2 3 0 1 4)
         ["GG"; "ACG"; "ACG"; "TTGCA"; "GG"]%string →
       Encoding.strip_special 2 3 0 1 4 ids
       = Encoding.truncate
           (Encoding.convert_tokens_to_ids Encoding.example_vocab 1
              ["GG"; "ACG"; "ACG"; "TTGCA"; "GG"]%string)
           (Encoding.max_length Encoding.example_dataset))
    ∧ (∀ k c,
         Encoding.truncate
           (Encoding.convert_tokens_to_ids Encoding.example_vocab 1
              ["GG"; "ACG"; "ACG"; "TTGCA"; "GG"]%string)
           (Encoding.max_length Encoding.example_dataset) !! k = Some c →
         ids !! Datatypes.S k = Some c)
    ∧ ((3 ≤ Encoding.max_length Encoding.example_dataset)%nat →
       Encoding.truncate
         (Encoding.convert_tokens_to_ids Encoding.example_vocab 1
            ["GG"; "ACG"; "ACG"; "TTGCA"; "GG"]%string)
         (Encoding.max_length Encoding.example_dataset)
       = take (Encoding.max_length Encoding.example_dataset - 2)
           (Encoding.convert_tokens_to_ids Encoding.example_vocab 1
              ["GG"; "ACG"; "ACG"; "TTGCA"; "GG"]%string)
       ∧ length ids = Encoding.max_length Encoding.example_dataset)
    ∧ ((length ["GG"; "ACG"; "ACG"; "TTGCA"; "GG"]%string + 2
        ≤ Encoding.max_length Encoding.example_dataset)%nat →
       Encoding.truncate
         (Encoding.convert_tokens_to_ids Encoding.example_vocab 1
            ["GG"; "ACG"; "ACG"; "TTGCA"; "GG"]%string)
         (Encoding.max_length Encoding.example_dataset)
       = Encoding.convert_tokens_to_ids Encoding.example_vocab 1
           ["GG"; "ACG"; "ACG"; "TTGCA"; "GG"]%string).
Proof.
  apply (encode_strip_round_trip Encoding.example_vocab 2 3 0 1 4
    Encoding.example_dataset 1 ["GG"; "ACG"; "ACG"; "TTGCA"; "GG"]%string [0; 1]).
  - reflexivity.
  - reflexivity.
  - discriminate.
Defined.

(** The claim as first stated fails on an accepted sequence that holds a
    token outside the vocabulary: nothing is truncated, yet the id the
    token was given, the unknown id, does not come back. *)
Lemma encode_strip_round_trip_counterexample :
  Encoding.getitem Encoding.example_vocab 2 3 0 1 Encoding.unknown_dataset 0
  = Some ([2; 10; 1; 12; 3; 0], [1; 0], [1; 1; 1; 1; 1; 0], 0)
  ∧ Encoding.convert_tokens_to_ids Encoding.example_vocab 1
      ["ACG"; "NNNN"; "GG"]%string = [10; 1; 12]
  ∧ Encoding.truncate [10; 1; 12] (Encoding.max_length Encoding.unknown_dataset)
    = [10; 1; 12]
  ∧ Encoding.strip_special 2 3 0 1 4 [2; 10; 1; 12; 3; 0] = [10; 12]
  ∧ Encoding.strip_special 2 3 0 1 4 [2; 10; 1; 12; 3; 0]
    ≠ take (Encoding.max_length Encoding.unknown_dataset - 2)
        (Encoding.convert_tokens_to_ids Encoding.example_vocab 1
           ["ACG"; "NNNN"; "GG"]%string).
Proof. by split_and!. Qed.

(** A maximum length of two leaves no room for an id; the tokenizer then
    cuts nothing and the encoding is longer than the maximum. *)
Example encode_plus_max_length_two :
  Encoding.encode_plus Encoding.example_vocab 2 3 0 1 ["ACG"; "GG"]%string 2
  = Some ([2; 10; 12; 3], [1; 1; 1; 1]).
Proof. reflexivity. Qed.

(** Five tokens in a window of six: four survive, no padding; three tokens:
    one position of padding. *)
Example getitem_truncates :
  Encoding.getitem Encoding.example_vocab 2 3 0 1 Encoding.example_dataset 1
  = Some ([2; 12; 10; 10; 11; 3], [0; 1], [1; 1; 1; 1; 1; 1], 1).
Proof. reflexivity. Qed.

Example getitem_pads :
  Encoding.getitem Encoding.example_vocab 2 3 0 1 Encoding.example_dataset 0
  = Some ([2; 10; 11; 12; 3; 0], [1; 0], [1; 1; 1; 1; 1; 0], 0).
Proof. reflexivity. Qed.

(** A token outside the vocabulary becomes the unknown id, which is a
    special one and is stripped with the rest. *)
Example unknown_token_is_stripped :
  Encoding.encode_plus Encoding.example_vocab 2 3 0 1 ["ACG"; "NNNN"; "GG"]%string 6
  = Some ([2; 10; 1; 12; 3; 0], [1; 1; 1; 1; 1; 0])
  ∧ Encoding.strip_special 2 3 0 1 4 [2; 10; 1; 12; 3; 0] = [10; 12].
Proof. split; reflexivity. Qed.

(** * Further properties of the pipeline *)

(** ** Which token a position maps to *)

(** Both lookups of a window inside the mapper succeed, and the slice is
    taken between the two entries. *)
Lemma slice_region_in_bounds_aux (tokenized_chr : list Mapper.token) (start end_ : Z) :
  0 ≤ start < Z.of_nat (length (Mapper.create_mapper tokenized_chr)) →
  0 ≤ end_ < Z.of_nat (length (Mapper.create_mapper tokenized_chr)) →
  ∃ vs ve,
    Mapper.create_mapper tokenized_chr !! Z.to_nat start = Some vs
    ∧ Mapper.create_mapper tokenized_chr !! Z.to_nat end_ = Some ve
    ∧ Mapper.slice_region tokenized_chr (Mapper.create_mapper tokenized_chr) start end_
      = Some (Py.slice tokenized_chr vs ve).
Proof.
  intros Hs He.
  destruct (lookup_lt_is_Some_2 (Mapper.create_mapper tokenized_chr)
    (Z.to_nat start)) as [vs Hvs]; [lia|].
  destruct (lookup_lt_is_Some_2 (Mapper.create_mapper tokenized_chr)
    (Z.to_nat end_)) as [ve Hve]; [lia|].
  exists vs, ve. split_and!; [done..|].
  unfold Mapper.slice_region. by rewrite !getitem_nonneg, Hvs, Hve by lia.
Qed.

Section Coverage.

Import Mapper Tokenize.

Lemma offset_cons (tok : token) (tokens : list token) (t : nat) :
  offset (tok :: tokens) (Datatypes.S t) = (String.length tok + offset tokens t)%nat.
Proof. reflexivity. Qed.

Lemma offset_mono (tokens : list token) (s t : nat) :
  (s ≤ t)%nat →
  offset tokens t
  = (offset tokens s + nucleotide_count (take (t - s) (drop s tokens)))%nat.
Proof.
  intros Hst. unfold offset, nucleotide_count.
  replace t with (s + (t - s))%nat at 1 by lia.
  by rewrite <- take_take_drop, fmap_app, sum_list_with_app.
Qed.

(** The expansion of the tokens numbered from [k]: the entry at [p] is the
    number of the token whose nucleotides include [p]. *)
Lemma expansion_lookup (k : nat) (tokens : list token) (p : nat) (v : Z) :
  concat (imap (λ i tok, replicate (String.length tok) (Z.of_nat (k + i))) tokens)
    !! p = Some v
  ↔ ∃ t tok, v = Z.of_nat (k + t) ∧ tokens !! t = Some tok
      ∧ (offset tokens t ≤ p < offset tokens t + String.length tok)%nat.
Proof.
  revert k p v. induction tokens as [|tok tokens IH]; intros k p v.
  - simpl. split; [done|]. by intros (t & tok & _ & ? & _).
  - simpl.
    rewrite (imap_ext _ (λ i tok, replicate (String.length tok)
      (Z.of_nat (Datatypes.S k + i)))) by (intros i t _; simpl; do 2 f_equal; lia).
    destruct (decide (p < String.length tok)%nat) as [Hp|Hp].
    + rewrite lookup_app_l by (by rewrite length_replicate).
      rewrite lookup_replicate_2 by done. split.
      * intros [= <-]. exists 0%nat, tok.
        assert (offset (tok :: tokens) 0 = 0%nat) as -> by done.
        repeat split; first [done|lia].
      * intros (t & tok' & -> & Ht & Ho). destruct t as [|t]; [done|].
        rewrite offset_cons in Ho. lia.
    + rewrite lookup_app_r, length_replicate by (rewrite length_replicate; lia).
      rewrite IH. split.
      * intros (t & tok' & -> & Ht & Ho). exists (Datatypes.S t), tok'.
        rewrite offset_cons. repeat split; first [done|lia|(f_equal; lia)].
      * intros (t & tok' & -> & Ht & Ho). destruct t as [|t].
        { assert (offset (tok :: tokens) 0 = 0%nat) as Hz by done.
          rewrite Hz in Ho. simpl in Ht. simplify_eq. lia. }
        rewrite offset_cons in Ho. exists t, tok'.
        repeat split; first [done|lia|(f_equal; lia)].
Qed.

Lemma create_mapper_lookup (tokens : list token) (p : nat) (v : Z) :
  create_mapper tokens !! p = Some v
  ↔ ∃ t tok, v = Z.of_nat t ∧ tokens !! t = Some tok
      ∧ (offset tokens t ≤ p < offset tokens t + String.length tok)%nat.
Proof.
  rewrite create_mapper_expansion. unfold forward_expansion.
  exact (expansion_lookup 0 tokens p v).
Qed.

(** X1: the mapper sends a nucleotide position to the index of the token
    that covers it: entry [p] is [t] exactly when token [t] exists and [p]
    lies among its nucleotides, counted from the sum of the lengths of the
    tokens before it.  (An empty token covers nothing and never appears.) *)
Theorem create_mapper_covering_token (tokenized_chr : list token) (p : nat) (v : Z) :
  create_mapper tokenized_chr !! p = Some v
  ↔ ∃ t tok, v = Z.of_nat t ∧ tokenized_chr !! t = Some tok
      ∧ (offset tokenized_chr t ≤ p < offset tokenized_chr t + String.length tok)%nat.
Proof.
  rewrite create_mapper_expansion. unfold forward_expansion.
  exact (expansion_lookup 0 tokenized_chr p v).
Qed.

Example create_mapper_skips_empty_token :
  create_mapper ["AC"; ""; "GTT"]%string = [0; 0; 2; 2; 2].
Proof. reflexivity. Qed.

(** X2: for a window [0 <= start <= end < len(mapper)] the slicer returns
    the tokens from the one covering [start] up to, but not including, the
    one covering [end]: the sequence begins where the first of these tokens
    begins, stops where the token covering [end] begins, and so spans the
    window's width give or take less than one token at each side. *)
Theorem slice_region_span (tokenized_chr : list token) (start end_ : Z) :
  let mapper := create_mapper tokenized_chr in
  0 ≤ start → start ≤ end_ → end_ < Z.of_nat (length mapper) →
  ∃ ts te tok_s tok_e,
    tokenized_chr !! ts = Some tok_s ∧ tokenized_chr !! te = Some tok_e
    ∧ (ts ≤ te)%nat
    ∧ (offset tokenized_chr ts ≤ Z.to_nat start
       < offset tokenized_chr ts + String.length tok_s)%nat
    ∧ (offset tokenized_chr te ≤ Z.to_nat end_
       < offset tokenized_chr te + String.length tok_e)%nat
    ∧ slice_region tokenized_chr mapper start end_
      = Some (take (te - ts) (drop ts tokenized_chr))
    ∧ length (take (te - ts) (drop ts tokenized_chr)) = (te - ts)%nat
    ∧ nucleotide_count (take (te - ts) (drop ts tokenized_chr))
      = (offset tokenized_chr te - offset tokenized_chr ts)%nat
    ∧ end_ - start - Z.of_nat (String.length tok_e)
      < Z.of_nat (nucleotide_count (take (te - ts) (drop ts tokenized_chr)))
      < end_ - start + Z.of_nat (String.length tok_s).
Proof.
  intros mapper H0 Hle Hlen. subst mapper. unfold token in *.
  destruct (slice_region_in_bounds_aux tokenized_chr start end_)
    as (vs & ve & Hvs & Hve & Hslice); [lia..|].
  pose proof Hvs as Hvs'. pose proof Hve as Hve'.
  apply create_mapper_lookup in Hvs' as (ts & tok_s & -> & Hts & Hos).
  apply create_mapper_lookup in Hve' as (te & tok_e & -> & Hte & Hoe).
  assert (ts ≤ te)%nat as Hst.
  { pose proof (create_mapper_monotone tokenized_chr
      (Z.to_nat start) (Z.to_nat end_) _ _ ltac:(lia) Hvs Hve). lia. }
  pose proof (offset_mono tokenized_chr ts te Hst) as Hoff.
  pose proof (lookup_lt_Some _ _ _ Hts). pose proof (lookup_lt_Some _ _ _ Hte).
  unfold token in *.
  exists ts, te, tok_s, tok_e. split_and!; try done; try lia.
  - rewrite Hslice. f_equal.
    pose proof (slice_nonneg tokenized_chr (Z.of_nat ts) (Z.of_nat te)) as Hsl.
    rewrite !Nat2Z.id in Hsl. apply Hsl; lia.
  - rewrite length_take, length_drop. lia.
Qed.

End Coverage.

(** ** When the slicer raises *)

Section SlicerErrors.

Import Mapper.

Lemma slice_region_is_Some (tokens : list token) (mapper : list Z) (start end_ : Z) :
  is_Some (slice_region tokens mapper start end_)
  ↔ (- Z.of_nat (length mapper) ≤ start < Z.of_nat (length mapper))
    ∧ (- Z.of_nat (length mapper) ≤ end_ < Z.of_nat (length mapper)).
Proof.
  rewrite <- !getitem_is_Some. unfold slice_region.
  destruct (Py.getitem mapper start) as [s|]; simpl;
    [destruct (Py.getitem mapper end_) as [e|]; simpl|];
    split; try (intros [? ?]); try (intros [[? ?] [? ?]]); try done; eauto.
Qed.

(** X3: one motif raises exactly when one of its two positions lies
    outside [-len(mapper), len(mapper)); otherwise a token list comes back,
    whatever the order of the two positions. *)
Theorem slice_region_raises (tokenized_chr : list token) (mapper : list Z)
    (start end_ : Z) :
  slice_region tokenized_chr mapper start end_ = None
  ↔ ¬ (- Z.of_nat (length mapper) ≤ start < Z.of_nat (length mapper))
    ∨ ¬ (- Z.of_nat (length mapper) ≤ end_ < Z.of_nat (length mapper)).
Proof.
  rewrite eq_None_not_Some, slice_region_is_Some.
  split; [|tauto]. intros Hn.
  destruct (decide (- Z.of_nat (length mapper) ≤ start < Z.of_nat (length mapper)));
    [right|left]; tauto.
Qed.

Lemma mapM_cons {A B : Type} (f : A → option B) (x : A) (l : list A) :
  mapM f (x :: l) = y ← f x; k ← mapM f l; Some (y :: k).
Proof. reflexivity. Qed.

(** The two passes of lookups and the pairwise slicing amount to the
    one-motif function applied to each row in turn. *)
Lemma slice_chromosome_mapM (tokens : list token) (rows : list (Z * Z)) :
  slice_chromosome tokens rows
  = mapM (λ row, slice_region tokens (create_mapper tokens) row.1 row.2) rows.
Proof.
  induction rows as [|[s e] rows IH]; [done|].
  rewrite mapM_cons, <- IH.
  unfold slice_chromosome, slice_region. rewrite !fmap_cons, !mapM_cons.
  cbn [fst snd].
  destruct (Py.getitem (create_mapper tokens) s) as [vs|]; simpl; [|done].
  destruct (mapM (Py.getitem (create_mapper tokens)) (rows.*1)) as [ss|]; simpl.
  - destruct (Py.getitem (create_mapper tokens) e) as [ve|]; simpl; [|done].
    by destruct (mapM (Py.getitem (create_mapper tokens)) (rows.*2)).
  - by destruct (Py.getitem (create_mapper tokens) e).
Qed.

(** X4: the loop over one chromosome's motifs is all or nothing: it
    raises as soon as a single boundary of a single motif is out of range,
    and otherwise yields, in row order, exactly the slice of each motif,
    one per row. *)
Theorem slice_chromosome_all_or_nothing (tokenized_chr : list token)
    (rows : list (Z * Z)) :
  let mapper := create_mapper tokenized_chr in
  slice_chromosome tokenized_chr rows
  = mapM (λ row, slice_region tokenized_chr mapper row.1 row.2) rows
  ∧ (is_Some (slice_chromosome tokenized_chr rows)
     ↔ Forall (λ row,
         (- Z.of_nat (length mapper) ≤ row.1 < Z.of_nat (length mapper))
         ∧ (- Z.of_nat (length mapper) ≤ row.2 < Z.of_nat (length mapper))) rows)
  ∧ (∀ slices, slice_chromosome tokenized_chr rows = Some slices →
               length slices = length rows).
Proof.
  intros mapper. split_and!.
  - apply slice_chromosome_mapM.
  - rewrite slice_chromosome_mapM, mapM_is_Some. apply Forall_iff.
    intros row. apply slice_region_is_Some.
  - rewrite slice_chromosome_mapM. intros slices Hs. symmetry.
    by eapply length_mapM.
Qed.

End SlicerErrors.

(** ** The tokenization loop *)

Section Regrouping.

Import Table Tokenize.

Lemma elem_of_unique (l : list string) (x : string) : x ∈ unique l ↔ x ∈ l.
Proof.
  induction l as [|y l IH]; [done|]. simpl.
  rewrite !elem_of_cons, list_elem_of_filter, IH.
  destruct (decide (x = y)); tauto.
Qed.

Lemma NoDup_unique (l : list string) : NoDup (unique l).
Proof.
  induction l as [|y l IH]; simpl; constructor.
  - rewrite list_elem_of_filter. by intros [Hn _].
  - by apply NoDup_filter.
Qed.

Lemma filter_twice {A : Type} (P : A → Prop) `{∀ x, Decision (P x)} (l : list A) :
  filter P (filter P l) = filter P l.
Proof.
  apply filter_all. apply Forall_forall. by intros x [? _]%list_elem_of_filter.
Qed.

(** Two properties no row has both split the rows in two. *)
Lemma filter_either {A : Type} (P Q : A → Prop)
    `{∀ x, Decision (P x)} `{∀ x, Decision (Q x)} (l : list A) :
  (∀ x, P x → Q x → False) →
  filter P l ++ filter Q l ≡ₚ filter (λ x, P x ∨ Q x) l.
Proof.
  intros Hdisj. induction l as [|x l IH]; [done|].
  rewrite !filter_cons.
  destruct (decide (P x)) as [HP|HP], (decide (Q x)) as [HQ|HQ].
  - by destruct (Hdisj x).
  - rewrite decide_True by tauto. simpl. by rewrite IH.
  - rewrite decide_True by tauto. rewrite <- Permutation_middle. by rewrite IH.
  - rewrite decide_False by tauto. done.
Qed.

(** Visiting the rows name by name, for distinct names, visits each row
    that bears one of the names once. *)
Lemma groups_Permutation (names : list string) (data : list motif) :
  NoDup names →
  names ≫= (λ chrom, filter (λ m, chr m = chrom) data)
  ≡ₚ filter (λ m, chr m ∈ names) data.
Proof.
  induction 1 as [|c names Hc Hnd IH].
  - simpl. symmetry. rewrite (filter_none _ data); [done|].
    apply Forall_forall. intros m _. apply not_elem_of_nil.
  - rewrite bind_cons, IH.
    rewrite (filter_either (λ m, chr m = c) (λ m, chr m ∈ names))
      by (intros m -> ?; done).
    erewrite (list_filter_iff (λ m, chr m = c ∨ chr m ∈ names)); [done|].
    intros m. rewrite elem_of_cons. tauto.
Qed.

Lemma regroup_Permutation (data : list motif) : regroup data ≡ₚ data.
Proof.
  unfold regroup. rewrite groups_Permutation by apply NoDup_unique.
  rewrite filter_all; [done|].
  apply Forall_forall. intros m Hm. apply elem_of_unique.
  by apply list_elem_of_fmap_2.
Qed.

(** A row under another name is in none of the groups. *)
Lemma groups_skip (names : list string) (m : motif) (data : list motif) :
  Forall (λ c, c ≠ chr m) names →
  names ≫= (λ chrom, filter (λ m, chr m = chrom) (m :: data))
  = names ≫= (λ chrom, filter (λ m, chr m = chrom) data).
Proof.
  induction 1 as [|c names Hc _ IH]; [done|].
  rewrite !bind_cons, IH. f_equal. by rewrite filter_cons_False by done.
Qed.

(** On grouped rows the loop visits the rows in their own order. *)
Lemma regroup_grouped (data : list motif) : grouped data → regroup data = data.
Proof.
  unfold regroup. induction 1 as [|m rows Hg IH Hhead]; [done|].
  rewrite fmap_cons. cbn [unique]. rewrite bind_cons, filter_cons_True by done.
  rewrite groups_skip
    by (apply Forall_forall; by intros c [? _]%list_elem_of_filter).
  simpl. f_equal.
  destruct (decide (chr m ∈ chr <$> rows)) as [Hin|Hout].
  - destruct rows as [|m2 rows]; [by apply elem_of_nil in Hin|].
    specialize (Hhead Hin). simpl in Hhead. injection Hhead as Hm2.
    rewrite fmap_cons in *. cbn [unique] in *. rewrite Hm2 in *.
    rewrite (filter_cons_False (λ y : string, y ≠ chr m))
      by (intros Hn; by apply Hn).
    rewrite filter_twice.
    by rewrite bind_cons in IH.
  - rewrite (filter_none _ rows).
    2:{ apply Forall_forall. intros m' Hm' Heq. apply Hout. rewrite <- Heq.
        by apply list_elem_of_fmap_2. }
    rewrite filter_all; [done|].
    apply Forall_forall. intros c Hc ->. apply Hout. by apply elem_of_unique.
Qed.

(** Sorting by name groups the rows. *)
Lemma sorted_grouped (data : list motif) : sorted_by_chr data → grouped data.
Proof.
  induction 1 as [|m rows Hs IH Hm]; constructor; [done|].
  intros Hin. destruct rows as [|m2 rows]; [by apply elem_of_nil in Hin|].
  simpl. f_equal. rewrite Forall_forall in Hm.
  apply String.leb_antisym; [|apply Hm; left].
  rewrite fmap_cons, elem_of_cons in Hin. destruct Hin as [->|Hin].
  - destruct (String.leb_total (chr m2) (chr m2)); done.
  - apply list_elem_of_fmap in Hin as (m3 & -> & Hm3).
    apply StronglySorted_inv in Hs as [_ Hs2]. rewrite Forall_forall in Hs2.
    by apply Hs2.
Qed.

End Regrouping.

Section TokenizeFacts.

Import Table Tokenize.

Variable files : string → option (list Mapper.token).

Lemma foldl_append {A : Type} (acc l : list A) : foldl Py.append acc l = acc ++ l.
Proof.
  revert acc. induction l as [|x l IH]; intros acc; simpl.
  - by rewrite app_nil_r.
  - rewrite IH. unfold Py.append. by rewrite <- (assoc_L (++)).
Qed.

Lemma mapM_app_eq {A B : Type} (f : A → option B) (l1 l2 : list A) :
  mapM f (l1 ++ l2) = k1 ← mapM f l1; k2 ← mapM f l2; Some (k1 ++ k2).
Proof.
  induction l1 as [|x l1 IH].
  - simpl. by destruct (mapM f l2).
  - rewrite <- app_comm_cons, !mapM_cons, IH. destruct (f x); simpl; [|done].
    destruct (mapM f l1); simpl; [|done]. by destruct (mapM f l2).
Qed.

Lemma mapM_fmap_ext {A B C : Type} (f : A → option C) (g : B → option C)
    (h : B → A) (l : list B) :
  Forall (λ x, f (h x) = g x) l → mapM f (h <$> l) = mapM g l.
Proof.
  induction 1 as [|x l Hx _ IH]; [done|].
  by rewrite fmap_cons, !mapM_cons, Hx, IH.
Qed.

Lemma mapM_Permutation {A B : Type} (f : A → option B) (l l' : list A) :
  l ≡ₚ l' →
  (is_Some (mapM f l) ↔ is_Some (mapM f l'))
  ∧ (∀ k k', mapM f l = Some k → mapM f l' = Some k' → k ≡ₚ k').
Proof.
  intros Hp. split.
  - rewrite !mapM_is_Some. by rewrite Hp.
  - intros k k' Hk Hk'. apply mapM_Some in Hk, Hk'. revert k k' Hk Hk'.
    induction Hp as [|x l l' Hp IH|x y l|l1 l2 l3 Hp1 IH1 Hp2 IH2]; intros k k' Hk Hk'.
    + by inversion Hk; inversion Hk'.
    + inversion Hk as [|? y1 ? k1 Hy1 Hk1]; inversion Hk' as [|? y2 ? k2 Hy2 Hk2].
      simplify_eq. constructor. by apply IH.
    + inversion Hk as [|? y1 ? k1 Hy1 Hk1]; inversion Hk1 as [|? y2 ? k2 Hy2 Hk2].
      inversion Hk' as [|? z1 ? j1 Hz1 Hj1]; inversion Hj1 as [|? z2 ? j2 Hz2 Hj2].
      simplify_eq.
      assert (k2 = j2) as ->; [|apply perm_swap].
      apply mapM_Some_2 in Hk2, Hj2. congruence.
    + destruct (mapM f l2) as [k2|] eqn:Hk2.
      * apply mapM_Some in Hk2. etransitivity; [by apply IH1|by apply IH2].
      * apply mapM_None in Hk2. rewrite <- Hp1 in Hk2.
        apply mapM_None in Hk2. apply mapM_Some_2 in Hk. congruence.
Qed.

(** One chromosome of the loop: its file is read and its rows are sliced;
    for a name that occurs in the table this is the one-motif function on
    each of its rows. *)
Lemma tokenize_chromosome_rows (data : list motif) (chrom : string)
    (acc : list (list Mapper.token)) :
  chrom ∈ chr <$> data →
  tokenize_chromosome files data chrom acc
  = k ← mapM (region files) (filter (λ m, chr m = chrom) data); Some (acc ++ k).
Proof.
  intros (m & -> & Hm)%list_elem_of_fmap. unfold tokenize_chromosome.
  destruct (files (chrom_file (chr m))) as [toks|] eqn:Hfile; simpl.
  - rewrite slice_chromosome_mapM.
    rewrite (mapM_fmap_ext _ (region files)).
    + destruct (mapM _ _); simpl; [|done]. by rewrite foldl_append.
    + apply Forall_forall. intros m' [Hm' _]%list_elem_of_filter.
      unfold region. simpl in *. by rewrite Hm', Hfile.
  - symmetry. apply bind_None. left. apply mapM_None, Exists_exists.
    exists m. split; [by apply list_elem_of_filter|].
    unfold region. by rewrite Hfile.
Qed.

Lemma for_each_chromosomes (data : list motif) (names : list string)
    (acc : list (list Mapper.token)) :
  Forall (λ c, c ∈ chr <$> data) names →
  for_each names (tokenize_chromosome files data) acc
  = k ← mapM (region files)
        (names ≫= (λ chrom, filter (λ m, chr m = chrom) data));
    Some (acc ++ k).
Proof.
  intros Hnames. revert acc.
  induction Hnames as [|c names Hc _ IH]; intros acc; simpl.
  - by rewrite app_nil_r.
  - rewrite tokenize_chromosome_rows, mapM_app_eq by done.
    destruct (mapM _ (filter _ data)) as [k1|]; simpl; [|done].
    rewrite IH. destruct (mapM _ _) as [k2|]; simpl; [|done].
    by rewrite (assoc_L (++)).
Qed.

(** The loop is the one-motif function over the rows in visiting order. *)
Lemma tokenize_regroup (data : list motif) :
  tokenize files data = mapM (region files) (regroup data).
Proof.
  unfold tokenize. rewrite for_each_chromosomes.
  - unfold regroup. by destruct (mapM _ _).
  - apply Forall_forall. intros c. apply elem_of_unique.
Qed.

Lemma tokenize_length (data : list motif) (seqs : list (list Mapper.token)) :
  tokenize files data = Some seqs → length seqs = length data.
Proof.
  rewrite tokenize_regroup. intros Hs%length_mapM.
  by rewrite <- Hs, (regroup_Permutation data).
Qed.

(** X5: the loop over the chromosome names raises exactly when some motif
    cannot be cut (its chromosome's file is missing, or one of its two
    positions is out of range for that chromosome's mapper); otherwise it
    yields one sequence per motif, the sequences being those of the motifs
    taken chromosome by chromosome. *)
Theorem tokenize_all_motifs (data : list motif) :
  tokenize files data = mapM (region files) (regroup data)
  ∧ regroup data ≡ₚ data
  ∧ (is_Some (tokenize files data) ↔ Forall (λ m, is_Some (region files m)) data)
  ∧ (∀ seqs, tokenize files data = Some seqs → length seqs = length data).
Proof.
  split_and!.
  - apply tokenize_regroup.
  - apply regroup_Permutation.
  - rewrite tokenize_regroup, mapM_is_Some.
    by rewrite (regroup_Permutation data).
  - apply tokenize_length.
Qed.

(** X6: on a table sorted by chromosome name, as [sort_values] leaves it,
    the sequences come out in the table's own row order: the k-th sequence
    is the one cut for the k-th motif. *)
Theorem tokenize_sorted_aligned (data : list motif) :
  sorted_by_chr data →
  tokenize files data = mapM (region files) data.
Proof.
  intros Hs. rewrite tokenize_regroup.
  by rewrite (regroup_grouped data (sorted_grouped data Hs)).
Qed.

(** X7: a motif whose chromosome has no file aborts the whole loop, and no
    dataset is built: any name that passes the length filter but is not one
    of the files on disk does so. *)
Theorem tokenize_missing_file (data : @Split.frame motif) (label : Z) (m : motif) :
  (label, m) ∈ data →
  files (chrom_file (chr m)) = None →
  tokenize files (data.*2) = None ∧ grover_dataset files data = None.
Proof.
  intros Hm Hfile.
  assert (tokenize files (data.*2) = None) as Hnone.
  { rewrite tokenize_regroup. apply mapM_None, Exists_exists. exists m. split.
    - rewrite (regroup_Permutation (data.*2)).
      apply list_elem_of_fmap. by exists (label, m).
    - unfold region. by rewrite Hfile. }
  split; [done|]. unfold grover_dataset. by rewrite Hnone.
Qed.

Lemma zip_with_index {A B C : Type} (f : Z * A → B → C) (data : list (Z * A))
    (seqs : list B) :
  length seqs = length data →
  (zip_with (λ row x, (row.1, f row x)) data seqs).*1 = data.*1.
Proof.
  revert seqs. induction data as [|row data IH]; intros [|x seqs] Hlen;
    simpl in *; try done.
  f_equal. apply IH. lia.
Qed.

(** Built or not, the frame takes the table's index and length. *)
Lemma grover_dataset_index (data : @Split.frame motif)
    (dataset : @Split.frame (list Mapper.token * Z)) :
  grover_dataset files data = Some dataset →
  Split.index_of dataset = Split.index_of data ∧ length dataset = length data.
Proof.
  unfold grover_dataset.
  destruct (tokenize files (data.*2)) as [seqs|] eqn:Hseqs; simpl; [|done].
  pose proof (tokenize_length _ _ Hseqs) as Hlen. rewrite length_fmap in Hlen.
  unfold build_dataset. rewrite bool_decide_eq_true_2 by done.
  intros [= <-]. split.
  - unfold Split.index_of.
    by apply (zip_with_index (λ row x, (x, class row.2))).
  - rewrite length_zip_with. unfold Split.frame in *. lia.
Qed.

(** X8: on a table sorted by chromosome name the dataset, when it is
    built, keeps the table's index and pairs every row's class with the
    token sequence cut for that very row; the frame constructor never sees
    lists of different lengths. *)
Theorem grover_dataset_rows (data : @Split.frame motif)
    (dataset : @Split.frame (list Mapper.token * Z)) :
  sorted_by_chr (data.*2) →
  grover_dataset files data = Some dataset →
  Split.index_of dataset = Split.index_of data
  ∧ length dataset = length data
  ∧ ∀ i label m, data !! i = Some (label, m) →
      ∃ x, region files m = Some x ∧ dataset !! i = Some (label, (x, class m)).
Proof.
  intros Hs Hds. destruct (grover_dataset_index data dataset Hds) as [Hidx Hlen].
  split; [done|]. split; [done|].
  unfold grover_dataset in Hds.
  destruct (tokenize files (data.*2)) as [seqs|] eqn:Hseqs; simpl in Hds; [|done].
  unfold build_dataset in Hds. case_bool_decide; [|done]. injection Hds as <-.
  rewrite tokenize_regroup, (regroup_grouped _ (sorted_grouped _ Hs)) in Hseqs.
  apply mapM_Some in Hseqs.
  intros i label m Hi. unfold Split.frame in *.
  assert (data.*2 !! i = Some m) as Hm by (by rewrite list_lookup_fmap, Hi).
  destruct (Forall2_lookup_l _ _ _ _ _ Hseqs Hm) as (x & Hx & Hreg).
  exists x. split; [done|].
  rewrite lookup_zip_with, Hi. simpl. by rewrite Hx.
Qed.

End TokenizeFacts.

Lemma slice_region_span_witness :
  ∃ ts te tok_s tok_e,
    ["ACG"; "TTGCA"; "GG"]%string !! ts = Some tok_s
    ∧ ["ACG"; "TTGCA"; "GG"]%string !! te = Some tok_e
    ∧ (ts ≤ te)%nat
    ∧ (Tokenize.offset ["ACG"; "TTGCA"; "GG"]%string ts ≤ Z.to_nat 1
       < Tokenize.offset ["ACG"; "TTGCA"; "GG"]%string ts + String.length tok_s)%nat
    ∧ (Tokenize.offset ["ACG"; "TTGCA"; "GG"]%string te ≤ Z.to_nat 8
       < Tokenize.offset ["ACG"; "TTGCA"; "GG"]%string te + String.length tok_e)%nat
    ∧ Mapper.slice_region ["ACG"; "TTGCA"; "GG"]%string
        (Mapper.create_mapper ["ACG"; "TTGCA"; "GG"]%string) 1 8
      = Some (take (te - ts) (drop ts ["ACG"; "TTGCA"; "GG"]%string))
    ∧ length (take (te - ts) (drop ts ["ACG"; "TTGCA"; "GG"]%string)) = (te - ts)%nat
    ∧ Mapper.nucleotide_count (take (te - ts) (drop ts ["ACG"; "TTGCA"; "GG"]%string))
      = (Tokenize.offset ["ACG"; "TTGCA"; "GG"]%string te
         - Tokenize.offset ["ACG"; "TTGCA"; "GG"]%string ts)%nat
    ∧ 8 - 1 - Z.of_nat (String.length tok_e)
      < Z.of_nat (Mapper.nucleotide_count
          (take (te - ts) (drop ts ["ACG"; "TTGCA"; "GG"]%string)))
      < 8 - 1 + Z.of_nat (String.length tok_s).
Proof.
  apply (slice_region_span ["ACG"; "TTGCA"; "GG"]%string 1 8); vm_compute; congruence.
Defined.

Lemma tokenize_sorted_aligned_witness :
  Tokenize.tokenize Tokenize.example_files (Tokenize.example_data.*2)
  = mapM (Tokenize.region Tokenize.example_files) (Tokenize.example_data.*2).
Proof.
  apply (tokenize_sorted_aligned Tokenize.example_files (Tokenize.example_data.*2)).
  repeat constructor.
Defined.

Lemma tokenize_missing_file_witness :
  Tokenize.tokenize Tokenize.example_files
    ((Tokenize.example_data ++ [(9, Table.Motif "chrM" 2 5 1)]).*2) = None
  ∧ Tokenize.grover_dataset Tokenize.example_files
      (Tokenize.example_data ++ [(9, Table.Motif "chrM" 2 5 1)]) = None.
Proof.
  apply (tokenize_missing_file Tokenize.example_files
    (Tokenize.example_data ++ [(9, Table.Motif "chrM" 2 5 1)])
    9 (Table.Motif "chrM" 2 5 1)).
  - apply elem_of_app. right. apply list_elem_of_singleton. reflexivity.
  - reflexivity.
Defined.

Lemma grover_dataset_rows_witness :
  Split.index_of [(4, (["ACG"; "TTGCA"], 1)); (0, (["TTGCA"; "GG"], 0));
                  (7, (["TT"; "ACGT"], 1)); (2, ([], 0))]%string
  = Split.index_of Tokenize.example_data
  ∧ length [(4, (["ACG"; "TTGCA"], 1)); (0, (["TTGCA"; "GG"], 0));
            (7, (["TT"; "ACGT"], 1)); (2, ([], 0))]%string
    = length Tokenize.example_data
  ∧ ∀ i label m, Tokenize.example_data !! i = Some (label, m) →
      ∃ x, Tokenize.region Tokenize.example_files m = Some x
        ∧ [(4, (["ACG"; "TTGCA"], 1)); (0, (["TTGCA"; "GG"], 0));
           (7, (["TT"; "ACGT"], 1)); (2, ([], 0))]%string !! i
          = Some (label, (x, Table.class m)).
Proof.
  apply (grover_dataset_rows Tokenize.example_files Tokenize.example_data).
  - repeat constructor.
  - reflexivity.
Defined.

(** Left unsorted, the table has its sequences come out chromosome by
    chromosome while the classes stay in row order: the second and third
    sequence change places. *)
Example tokenize_unsorted_misaligned :
  let rows := [Table.Motif "chrX" 0 6 1; Table.Motif "chr1" 1 8 1;
               Table.Motif "chrX" 3 3 0]%string in
  Tokenize.tokenize Tokenize.example_files rows
  = Some [["TT"; "ACGT"]; []; ["ACG"; "TTGCA"]]%string
  ∧ mapM (Tokenize.region Tokenize.example_files) rows
    = Some [["TT"; "ACGT"]; ["ACG"; "TTGCA"]; []]%string.
Proof. split; reflexivity. Qed.

(** ** The table before tokenization *)

Section TableFacts.

Import Table.

Lemma expand_window_center (start end_ : Z) :
  Motif.expand_window (Motif.expand_window start end_).1
                      (Motif.expand_window start end_).2
  = Motif.expand_window start end_.
Proof.
  unfold Motif.expand_window. simpl.
  set (c := start + (end_ - start) `div` 2).
  replace (c + 500 - (c - 500)) with (500 * 2) by lia.
  rewrite Z.div_mul by done. f_equal; lia.
Qed.

Lemma expand_row_twice (m : motif) : expand_row (expand_row m) = expand_row m.
Proof.
  unfold expand_row. cbn [chr start end_ class].
  by rewrite expand_window_center.
Qed.

(** Where nothing wraps the 64-bit window is the window on integers. *)
Lemma expand_window64_no_wrap (start end_ : Z) :
  no_wrap start end_ →
  Motif.expand_window64 start end_ = Motif.expand_window start end_.
Proof.
  unfold no_wrap, Motif.is_int64, Motif.int64_min, Motif.int64_max.
  intros (Hs & He & Hd & Hlo & Hhi).
  unfold Motif.expand_window64, Motif.expand_window.
  assert (∀ z, - 2 ^ 63 ≤ z ≤ 2 ^ 63 - 1 → Motif.wrap64 z = z) as Hid
    by (intros z Hz; by apply wrap64_id).
  pose proof (Z.div_mod (end_ - start) 2 ltac:(lia)) as Hdm.
  pose proof (Z.mod_pos_bound (end_ - start) 2 ltac:(lia)) as Hr.
  unfold Motif.sub64, Motif.add64, Motif.floordiv64.
  rewrite (Hid (end_ - start)) by lia.
  rewrite (Hid ((end_ - start) `div` 2)) by lia.
  rewrite (Hid (start + (end_ - start) `div` 2)) by lia.
  by rewrite !Hid by lia.
Qed.

Lemma wrap64_add_l (a b : Z) :
  Motif.wrap64 (Motif.wrap64 a + b) = Motif.wrap64 (a + b).
Proof.
  unfold Motif.wrap64. f_equal.
  replace ((a + 2 ^ 63) `mod` 2 ^ 64 - 2 ^ 63 + b + 2 ^ 63)
    with ((a + 2 ^ 63) `mod` 2 ^ 64 + b) by lia.
  rewrite Zplus_mod_idemp_l. f_equal. lia.
Qed.

(** Expanding again on the 64-bit columns changes nothing either, whatever
    wrapped the first time. *)
Lemma expand_window64_center (start end_ : Z) :
  Motif.expand_window64 (Motif.expand_window64 start end_).1
                        (Motif.expand_window64 start end_).2
  = Motif.expand_window64 start end_.
Proof.
  pose proof (expand_window64_width start end_) as Hwidth.
  unfold Motif.expand_window64 in *. cbn [fst snd] in *.
  set (c := Motif.add64 start (Motif.floordiv64 (Motif.sub64 end_ start) 2)) in *.
  rewrite Hwidth.
  assert (Motif.floordiv64 1000 2 = 500) as -> by done.
  assert (Motif.add64 (Motif.sub64 c 500) 500 = c) as ->; [|done].
  unfold Motif.add64, Motif.sub64. rewrite wrap64_add_l.
  replace (c - 500 + 500) with c by lia.
  apply wrap64_id. unfold c, Motif.add64. apply wrap64_range.
Qed.

Lemma expand_all64_idempotent (data : @Split.frame motif) :
  expand_all64 (expand_all64 data) = expand_all64 data.
Proof.
  unfold expand_all64. rewrite <- list_fmap_compose.
  apply list_fmap_ext. intros _ [l m] _. simpl. f_equal.
  unfold expand_row64. cbn [chr start end_ class].
  by rewrite expand_window64_center.
Qed.

(** X9: running the expansion cell again changes nothing: the expanded
    window has the same center, so expanding an expanded table gives the
    same table; index, chromosome and class of every row are untouched.
    The same holds on the table's 64-bit columns, whatever wrapped. *)
Theorem expand_all_idempotent (data : @Split.frame motif) :
  (expand_all (expand_all data) = expand_all data
   ∧ Split.index_of (expand_all data) = Split.index_of data
   ∧ chr <$> (expand_all data).*2 = chr <$> data.*2
   ∧ class <$> (expand_all data).*2 = class <$> data.*2)
  ∧ (expand_all64 (expand_all64 data) = expand_all64 data
     ∧ Split.index_of (expand_all64 data) = Split.index_of data
     ∧ chr <$> (expand_all64 data).*2 = chr <$> data.*2
     ∧ class <$> (expand_all64 data).*2 = class <$> data.*2).
Proof.
  split.
  - unfold expand_all, Split.index_of. split_and!.
    + rewrite <- list_fmap_compose. apply list_fmap_ext. intros _ [l m] _. simpl.
      by rewrite expand_row_twice.
    + rewrite <- list_fmap_compose. by apply list_fmap_ext.
    + rewrite <- !list_fmap_compose. by apply list_fmap_ext.
    + rewrite <- !list_fmap_compose. by apply list_fmap_ext.
  - split; [apply expand_all64_idempotent|].
    unfold expand_all64, Split.index_of. split_and!.
    + rewrite <- list_fmap_compose. by apply list_fmap_ext.
    + rewrite <- !list_fmap_compose. by apply list_fmap_ext.
    + rewrite <- !list_fmap_compose. by apply list_fmap_ext.
Qed.

(** X10: on the table's 64-bit columns, where no operation of the
    expansion wraps, the window reaches back to the motif's start exactly
    when the motif is at most 1001 nucleotides long, and forward to its end
    exactly when it is at most 1000 long: a motif of up to 1000 nucleotides
    lies inside its window, a longer one is cut on both sides. *)
Theorem expand_window_covers_motif (start end_ : Z) :
  no_wrap start end_ →
  ((Motif.expand_window64 start end_).1 ≤ start ↔ end_ - start ≤ 1001)
  ∧ (end_ ≤ (Motif.expand_window64 start end_).2 ↔ end_ - start ≤ 1000).
Proof.
  intros Hnw. rewrite (expand_window64_no_wrap start end_ Hnw).
  unfold Motif.expand_window. simpl.
  pose proof (Z.div_mod (end_ - start) 2 ltac:(lia)) as Hdm.
  pose proof (Z.mod_pos_bound (end_ - start) 2 ltac:(lia)) as Hr.
  lia.
Qed.

Lemma expand_window_covers_motif_witness :
  ((Motif.expand_window64 10000 10019).1 ≤ 10000 ↔ 10019 - 10000 ≤ 1001)
  ∧ (10019 ≤ (Motif.expand_window64 10000 10019).2 ↔ 10019 - 10000 ≤ 1000).
Proof.
  apply (expand_window_covers_motif 10000 10019).
  unfold no_wrap, Motif.is_int64. vm_compute. repeat split; congruence.
Defined.

(** Where the last addition wraps, the motif is not inside its window. *)
Example expand_window64_wrapped_end :
  (Motif.expand_window64 Motif.int64_max Motif.int64_max).2 < Motif.int64_max.
Proof. reflexivity. Qed.

Lemma expand_all_sorted (data : @Split.frame motif) :
  sorted_by_chr (data.*2) → sorted_by_chr ((expand_all data).*2).
Proof.
  unfold sorted_by_chr, expand_all. rewrite <- list_fmap_compose.
  induction data as [|[l m] data IH]; simpl; [constructor|].
  intros [Hs Hm]%StronglySorted_inv. constructor; [by apply IH|].
  rewrite Forall_fmap in *. eapply Forall_impl; [exact Hm|]. by intros [? ?].
Qed.

Lemma filter_scaffolds_index_NoDup (table : @Split.frame motif) :
  NoDup (Split.index_of table) → NoDup (Split.index_of (filter_scaffolds table)).
Proof.
  unfold Split.index_of, filter_scaffolds, Split.frame in *. intros Hnd.
  induction table as [|[l m] table IH]; [done|].
  rewrite fmap_cons in Hnd. apply NoDup_cons in Hnd as [Hl Hnd].
  rewrite filter_cons. destruct (decide _); [|by apply IH].
  rewrite fmap_cons. apply NoDup_cons. split; [|by apply IH].
  intros ((l' & m') & Heq & [_ Hin]%list_elem_of_filter)%list_elem_of_fmap.
  simpl in Heq. subst l'. apply Hl. apply list_elem_of_fmap. by exists (l, m').
Qed.

End TableFacts.

(** ** From the table to the split *)

Section PipelineFacts.

Import Table Tokenize.

Variable files : string → option (list Mapper.token).

Lemma dataset_index_of_table (n : nat) (table data expanded : @Split.frame motif)
    (dataset : @Split.frame (list Mapper.token * Z)) :
  Split.index_of table = Split.range_index n →
  data ≡ₚ filter_scaffolds table →
  Split.index_of expanded = Split.index_of data →
  length expanded = length data →
  grover_dataset files expanded = Some dataset →
  NoDup (Split.index_of dataset)
  ∧ Split.index_of dataset ≡ₚ Split.index_of (filter_scaffolds table)
  ∧ length dataset = length (filter_scaffolds table).
Proof.
  intros Hidx Hperm Hexp Hexplen Hds.
  destruct (grover_dataset_index files expanded dataset Hds) as (Hi & Hlen).
  assert (Split.index_of data ≡ₚ Split.index_of (filter_scaffolds table)) as Hp
    by (unfold Split.index_of; by rewrite Hperm).
  split_and!.
  - rewrite Hi, Hexp, Hp. apply filter_scaffolds_index_NoDup.
    rewrite Hidx. unfold Split.range_index.
    apply NoDup_fmap_2; [apply _|apply NoDup_seq].
  - by rewrite Hi, Hexp.
  - rewrite Hlen, Hexplen. by rewrite Hperm.
Qed.

(** X11: the dataset handed to the split has distinct index labels: the
    table is numbered by [read_csv], the scaffold filter and the sort only
    drop and reorder rows, the expansion and the tokenization keep the
    index.  (Distinct labels are what [drop] needs to remove exactly the
    sampled rows.)  The same holds with the expansion computed on the
    table's 64-bit columns. *)
Theorem dataset_index_distinct (n : nat) (table data : @Split.frame motif)
    (dataset : @Split.frame (list Mapper.token * Z)) :
  Split.index_of table = Split.range_index n →
  data ≡ₚ filter_scaffolds table →
  (grover_dataset files (expand_all data) = Some dataset →
   NoDup (Split.index_of dataset)
   ∧ Split.index_of dataset ≡ₚ Split.index_of (filter_scaffolds table)
   ∧ length dataset = length (filter_scaffolds table))
  ∧ (grover_dataset files (expand_all64 data) = Some dataset →
     NoDup (Split.index_of dataset)
     ∧ Split.index_of dataset ≡ₚ Split.index_of (filter_scaffolds table)
     ∧ length dataset = length (filter_scaffolds table)).
Proof.
  intros Hidx Hperm. split; intros Hds.
  - apply (dataset_index_of_table n table data (expand_all data)); try done.
    + unfold expand_all, Split.index_of. rewrite <- list_fmap_compose.
      by apply list_fmap_ext.
    + unfold expand_all. by rewrite length_fmap.
  - apply (dataset_index_of_table n table data (expand_all64 data)); try done.
    + unfold expand_all64, Split.index_of. rewrite <- list_fmap_compose.
      by apply list_fmap_ext.
    + unfold expand_all64. by rewrite length_fmap.
Qed.

End PipelineFacts.

Lemma dataset_index_distinct_witness :
  let dataset :=
    default [] (Tokenize.grover_dataset Tokenize.uniform_files
                  (Table.expand_all64 Tokenize.example_sorted)) in
  Tokenize.grover_dataset Tokenize.uniform_files
    (Table.expand_all Tokenize.example_sorted) = Some dataset
  ∧ Tokenize.grover_dataset Tokenize.uniform_files
      (Table.expand_all64 Tokenize.example_sorted) = Some dataset
  ∧ NoDup (Split.index_of dataset)
  ∧ Split.index_of dataset
    ≡ₚ Split.index_of (Table.filter_scaffolds Tokenize.example_table)
  ∧ length dataset = length (Table.filter_scaffolds Tokenize.example_table).
Proof.
  intros dataset.
  destruct (dataset_index_distinct Tokenize.uniform_files 4
    Tokenize.example_table Tokenize.example_sorted dataset) as [Hint H64].
  - reflexivity.
  - apply perm_swap.
  - split; [reflexivity|]. split; [reflexivity|].
    assert (NoDup (Split.index_of dataset)) as Hnodup by (apply Hint; reflexivity).
    split; [exact Hnodup|]. apply H64. reflexivity.
Defined.

Example dataset_index_example :
  Split.index_of (default []
    (Tokenize.grover_dataset Tokenize.uniform_files
       (Table.expand_all Tokenize.example_sorted))) = [2; 0; 3]
  ∧ length <$> (default []
      (Tokenize.grover_dataset Tokenize.uniform_files
         (Table.expand_all Tokenize.example_sorted))).*2.*1 = [250; 250; 250]%nat.
Proof. vm_compute. done. Qed.

(** ** Small datasets and repeated labels *)

Section SplitEdges.

Import Split.

Context {R : Type}.
Implicit Types (df : @frame R).

Variable choice : nat → nat → list nat.

(** The rows [sample] draws are rows of the frame. *)
Lemma sample_rows (frac : Q) df (row : Z * R) :
  row ∈ sample choice frac df → row ∈ df.
Proof.
  unfold sample. intros (i & _ & Hi)%list_elem_of_omap.
  by eapply list_elem_of_lookup_2.
Qed.

(** Dropping the labels of drawn rows never raises, and leaves the rows
    that carry none of them. *)
Lemma drop_sample (frac : Q) df :
  drop_rows (index_of (sample choice frac df)) df
  = Some (filter (λ row, row.1 ∉ index_of (sample choice frac df)) df).
Proof.
  unfold drop_rows. rewrite bool_decide_eq_true_2; [done|].
  apply Forall_forall. intros l (row & -> & Hrow)%list_elem_of_fmap.
  apply list_elem_of_fmap_2. by eapply sample_rows.
Qed.

(** X12: whatever the index looks like (labels may repeat) and whatever
    positions the generator draws, the split raises nothing, every row of
    the three frames is a row of the dataset, and no index label occurs in
    two of the frames. *)
Theorem split_never_shares_label df :
  ∃ train_data val_data test_data,
    split choice df = Some (train_data, val_data, test_data)
    ∧ (∀ row, row ∈ train_data ++ val_data ++ test_data → row ∈ df)
    ∧ (∀ l, l ∈ index_of train_data → l ∉ index_of val_data)
    ∧ (∀ l, l ∈ index_of train_data → l ∉ index_of test_data)
    ∧ (∀ l, l ∈ index_of val_data → l ∉ index_of test_data).
Proof.
  set (train := sample choice (8 # 10) df).
  set (rest := filter (λ row, row.1 ∉ index_of train) df).
  set (val := sample choice (5 # 10) rest).
  set (test := filter (λ row, row.1 ∉ index_of val) rest).
  assert (∀ l, l ∈ index_of rest → l ∉ index_of train) as Hrest.
  { intros l (row & -> & [Hn _]%list_elem_of_filter)%list_elem_of_fmap. done. }
  assert (∀ row, row ∈ val → row ∈ rest) as Hval
    by (intros row; apply sample_rows).
  exists train, val, test. split_and!.
  - unfold split. rewrite drop_sample. simpl. by rewrite drop_sample.
  - intros row. rewrite !elem_of_app. intros [Hr|[Hr|Hr]].
    + by eapply sample_rows.
    + apply Hval in Hr. by apply list_elem_of_filter in Hr as [_ ?].
    + apply list_elem_of_filter in Hr as [_ Hr].
      by apply list_elem_of_filter in Hr as [_ ?].
  - intros l Hl (row & -> & Hrow)%list_elem_of_fmap.
    apply (Hrest row.1); [|done]. apply list_elem_of_fmap_2. by apply Hval.
  - intros l Hl (row & -> & [_ Hrow]%list_elem_of_filter)%list_elem_of_fmap.
    apply (Hrest row.1); [|done]. by apply list_elem_of_fmap_2.
  - intros l Hl (row & -> & [Hn _]%list_elem_of_filter)%list_elem_of_fmap. done.
Qed.

(** What the generator guarantees: [size] distinct positions below [n]. *)
Hypothesis choice_valid : ∀ n size, (size ≤ n)%nat →
  length (choice n size) = size
  ∧ NoDup (choice n size)
  ∧ Forall (λ i, (i < n)%nat) (choice n size).

(** X13: how small a dataset may be: the training frame is empty only for
    the empty dataset, the test frame needs at least 3 samples and the
    validation frame at least 8 (half of one remaining row rounds to
    none); validation and test never differ by more than one row. *)
Theorem split_small_datasets df :
  NoDup (index_of df) →
  ∃ train_data val_data test_data,
    split choice df = Some (train_data, val_data, test_data)
    ∧ (train_data ≠ [] ↔ (1 ≤ length df)%nat)
    ∧ (test_data ≠ [] ↔ (3 ≤ length df)%nat)
    ∧ (val_data ≠ [] ↔ (8 ≤ length df)%nat)
    ∧ -1 ≤ Z.of_nat (length val_data) - Z.of_nat (length test_data) ≤ 1.
Proof.
  intros Hlab.
  pose proof (sample_size_train (length df)) as [Hle1 Hb1].
  destruct (sample_partition choice choice_valid (8 # 10) df Hlab Hle1)
    as (rest & Hdrop1 & Hperm1 & Hlen1 & Hlab1).
  pose proof (sample_size_val (length rest)) as [Hle2 Hb2].
  destruct (sample_partition choice choice_valid (5 # 10) rest Hlab1 Hle2)
    as (test & Hdrop2 & Hperm2 & Hlen2 & Hlab2).
  exists (sample choice (8 # 10) df), (sample choice (5 # 10) rest), test.
  pose proof (Permutation_length Hperm1) as Hl1.
  pose proof (Permutation_length Hperm2) as Hl2.
  rewrite length_app in Hl1, Hl2.
  assert (length rest = 1%nat → length (sample choice (5 # 10) rest) = 0%nat)
    as Hone by (intros Hr; by rewrite Hlen2, Hr).
  assert (∀ l : @frame R, l ≠ [] ↔ (1 ≤ length l)%nat) as Hnil.
  { intros [|? ?]; simpl; split; try done; lia. }
  rewrite !Hnil. unfold frame in *.
  split; [unfold split; rewrite Hdrop1; simpl; by rewrite Hdrop2|].
  destruct (decide (length rest = 1%nat)) as [Hr|Hr]; [specialize (Hone Hr)|]; lia.
Qed.

End SplitEdges.

Lemma split_small_datasets_witness :
  ∃ train_data val_data test_data,
    Split.split Split.leading_choice Split.ten_rows
    = Some (train_data, val_data, test_data)
    ∧ (train_data ≠ [] ↔ (1 ≤ length Split.ten_rows)%nat)
    ∧ (test_data ≠ [] ↔ (3 ≤ length Split.ten_rows)%nat)
    ∧ (val_data ≠ [] ↔ (8 ≤ length Split.ten_rows)%nat)
    ∧ -1 ≤ Z.of_nat (length val_data) - Z.of_nat (length test_data) ≤ 1.
Proof.
  apply (split_small_datasets Split.leading_choice).
  - intros n size Hle. unfold Split.leading_choice. split_and!.
    + apply length_seq.
    + apply NoDup_seq.
    + apply Forall_forall. intros i Hi%elem_of_seq. lia.
  - vm_compute. repeat (constructor; [rewrite ?elem_of_cons, elem_of_nil; lia|]).
    constructor.
Defined.

(** Seven samples: six for training, none for validation, one for test. *)
Example split_seven_rows :
  Split.split Split.leading_choice (take 7 Split.ten_rows)
  = Some (take 6 Split.ten_rows, [], [(106, 6%nat)]).
Proof. vm_compute. reflexivity. Qed.

(** With a repeated label [drop] removes more rows than were drawn: in the
    second table the third row shares its label with a drawn row and ends
    up in none of the three frames. *)
Example split_repeated_label :
  Split.split Split.leading_choice [(5, 0%nat); (5, 1%nat); (6, 2%nat)]
  = Some ([(5, 0%nat); (5, 1%nat)], [], [(6, 2%nat)])
  ∧ Split.split Split.leading_choice [(5, 0%nat); (6, 1%nat); (5, 2%nat)]
    = Some ([(5, 0%nat); (6, 1%nat)], [], []).
Proof. vm_compute. done. Qed.

(** ** What the training run leaves behind *)

Section CheckpointFacts.

Import Training.

Implicit Types (baseline : float) (val_losses : list float).

Lemma StronglySorted_snoc {A : Type} (Rel : A → A → Prop) (l : list A) (x : A) :
  StronglySorted Rel l → Forall (λ y, Rel y x) l → StronglySorted Rel (l ++ [x]).
Proof.
  induction 1 as [|y l Hl IH Hy]; intros Hx; simpl.
  - repeat constructor.
  - apply Forall_cons in Hx as [Hyx Hx]. constructor; [by apply IH|].
    apply Forall_app. split; [done|]. by repeat constructor.
Qed.

(** The loss of an epoch, as the loop reads it. *)
Local Abbreviation loss_at val_losses e := (default NaN (val_losses !! e)).

(** The state after the run: the best loss was observed and nothing
    observed is below it; it is the baseline as long as nothing was saved
    and the loss of the last saved epoch afterwards; the saved epochs
    ascend and their losses descend. *)
Lemma train_state baseline val_losses :
  let st := train baseline val_losses in
  best_val_loss st ∈ baseline :: val_losses
  ∧ (∀ p, p ∈ baseline :: val_losses → flt p (best_val_loss st) = false)
  ∧ (saved st = [] →
     best_val_loss st = baseline ∧ ∀ v, v ∈ val_losses → flt v baseline = false)
  ∧ (∀ e, last (saved st) = Some e → val_losses !! e = Some (best_val_loss st))
  ∧ (∀ e, e ∈ saved st → flt (loss_at val_losses e) baseline = true)
  ∧ StronglySorted (λ e1 e2, (e1 < e2)%nat
      ∧ flt (loss_at val_losses e2) (loss_at val_losses e1) = true) (saved st).
Proof.
  intros st. subst st. unfold train.
  assert (let st := Py.for_range (length val_losses)
            (λ epoch st, epoch_step epoch (loss_at val_losses epoch) st)
            {| best_val_loss := baseline; saved := [] |} in
          best_val_loss st ∈ baseline :: take (length val_losses) val_losses
          ∧ (∀ p, p ∈ baseline :: take (length val_losses) val_losses →
                  flt p (best_val_loss st) = false)
          ∧ (saved st = [] → best_val_loss st = baseline)
          ∧ (∀ e, last (saved st) = Some e → val_losses !! e = Some (best_val_loss st))
          ∧ (∀ e, e ∈ saved st →
               (e < length val_losses)%nat
               ∧ flt (loss_at val_losses e) baseline = true
               ∧ (loss_at val_losses e = best_val_loss st
                  ∨ flt (best_val_loss st) (loss_at val_losses e) = true))
          ∧ StronglySorted (λ e1 e2, (e1 < e2)%nat
              ∧ flt (loss_at val_losses e2) (loss_at val_losses e1) = true)
              (saved st)) as Hinv.
  { apply (for_range_invariant (λ k st,
      best_val_loss st ∈ baseline :: take k val_losses
      ∧ (∀ p, p ∈ baseline :: take k val_losses → flt p (best_val_loss st) = false)
      ∧ (saved st = [] → best_val_loss st = baseline)
      ∧ (∀ e, last (saved st) = Some e → val_losses !! e = Some (best_val_loss st))
      ∧ (∀ e, e ∈ saved st →
           (e < k)%nat
           ∧ flt (loss_at val_losses e) baseline = true
           ∧ (loss_at val_losses e = best_val_loss st
              ∨ flt (best_val_loss st) (loss_at val_losses e) = true))
      ∧ StronglySorted (λ e1 e2, (e1 < e2)%nat
          ∧ flt (loss_at val_losses e2) (loss_at val_losses e1) = true)
          (saved st))).
    - simpl. rewrite take_0. split_and!.
      + by apply list_elem_of_singleton.
      + intros p ->%list_elem_of_singleton. apply flt_irrefl.
      + done.
      + done.
      + by intros e ?%elem_of_nil.
      + constructor.
    - intros k st Hk (Hbest & Hmin & Hnone & Hlast & Hsaved & Hsorted).
      destruct (lookup_lt_is_Some_2 val_losses k Hk) as [v Hv].
      assert (∀ p, p ∈ baseline :: take (Datatypes.S k) val_losses
                   ↔ p ∈ baseline :: take k val_losses ∨ p = v) as Hprev.
      { intros p. rewrite (take_S_r _ _ _ Hv), !elem_of_cons, elem_of_app,
          list_elem_of_singleton. tauto. }
      unfold epoch_step. rewrite Hv. simpl.
      destruct (flt v (best_val_loss st)) eqn:Hlt; simpl.
      + assert (flt v baseline = true) as Hvb.
        { destruct (saved st) as [|e0 l0] eqn:Hs0.
          - by rewrite <- (Hnone eq_refl).
          - destruct (Hsaved e0) as (_ & He0 & [Heq|Hbelow]); [by left|..].
            + rewrite <- Heq in Hlt. exact (flt_trans _ _ _ Hlt He0).
            + exact (flt_trans _ _ _ Hlt (flt_trans _ _ _ Hbelow He0)). }
        split_and!.
        * apply Hprev. by right.
        * intros p [Hp| ->]%Hprev; [|apply flt_irrefl].
          apply not_true_iff_false. intros Hpv.
          pose proof (flt_trans _ _ _ Hpv Hlt) as Hpb. by rewrite Hmin in Hpb.
        * unfold Py.append. by intros ?%app_eq_nil%proj2.
        * intros e. unfold Py.append. rewrite last_snoc. by intros [= <-].
        * intros e. unfold Py.append.
          rewrite elem_of_app, list_elem_of_singleton. intros [He| ->].
          -- destruct (Hsaved e He) as (Hek & Heb & Hor). split_and!; [lia|done|].
             right. destruct Hor as [Heq|Hbelow]; [by rewrite Heq|].
             exact (flt_trans _ _ _ Hlt Hbelow).
          -- rewrite Hv. simpl. split_and!; [lia|done|by left].
        * apply StronglySorted_snoc; [done|]. apply Forall_forall. intros e He.
          destruct (Hsaved e He) as (Hek & _ & Hor). split; [done|].
          rewrite Hv. simpl. destruct Hor as [Heq|Hbelow]; [by rewrite Heq|].
          exact (flt_trans _ _ _ Hlt Hbelow).
      + split_and!; try done.
        * apply Hprev. by left.
        * intros p [Hp| ->]%Hprev; [by apply Hmin|done].
        * intros e He. destruct (Hsaved e He) as (Hek & Heb & Hor).
          split_and!; [lia|done..]. }
  rewrite firstn_all in Hinv. simpl in Hinv.
  destruct Hinv as (Hbest & Hmin & Hnone & Hlast & Hsaved & Hsorted).
  split_and!; try done.
  - intros Hs. split; [by apply Hnone|]. intros v Hv.
    rewrite <- (Hnone Hs). apply Hmin. by right.
  - intros e He. by apply Hsaved.
Qed.

(** X14: at the end of the run the best loss is one of the losses observed
    and none of them is below it; the checkpoint on disk, if there is one,
    is that of the last saved epoch, whose validation loss is this best
    loss. *)
Theorem checkpoint_holds_best baseline val_losses :
  let st := train baseline val_losses in
  best_val_loss st ∈ baseline :: val_losses
  ∧ (∀ p, p ∈ baseline :: val_losses → flt p (best_val_loss st) = false)
  ∧ (∀ e, last (saved st) = Some e → val_losses !! e = Some (best_val_loss st)).
Proof.
  intros st. destruct (train_state baseline val_losses) as (? & ? & _ & ? & _).
  by split_and!.
Qed.

(** X15: the output directory is never written exactly when no epoch's
    validation loss is below the baseline measured before training (in
    particular when the baseline is NaN); the best loss then stays the
    baseline, and the test cell finds no fine-tuned model to load. *)
Theorem nothing_saved_iff_no_improvement baseline val_losses :
  (saved (train baseline val_losses) = []
   ↔ ∀ v, v ∈ val_losses → flt v baseline = false)
  ∧ (saved (train baseline val_losses) = [] →
     best_val_loss (train baseline val_losses) = baseline).
Proof.
  destruct (train_state baseline val_losses) as (_ & _ & Hnone & _ & Hsaved & _).
  split; [split|]; [by intros ?%Hnone%proj2| |by intros ?%Hnone%proj1].
  intros Hall. destruct (saved _) as [|e l] eqn:Hs; [done|].
  pose proof (Hsaved e ltac:(by left)) as He.
  destruct (val_losses !! e) as [v|] eqn:Hv; simpl in He; [|done].
  rewrite Hall in He; [done|]. by eapply list_elem_of_lookup_2.
Qed.

(** X16: the epochs in which the directory is written come in ascending
    order and each has a validation loss strictly below that of the one
    before and below the baseline: a checkpoint is only ever overwritten by
    a better one. *)
Theorem checkpoints_improve baseline val_losses :
  StronglySorted (λ e1 e2, (e1 < e2)%nat
    ∧ flt (default NaN (val_losses !! e2)) (default NaN (val_losses !! e1)) = true)
    (saved (train baseline val_losses))
  ∧ Forall (λ e, flt (default NaN (val_losses !! e)) baseline = true)
      (saved (train baseline val_losses)).
Proof.
  destruct (train_state baseline val_losses) as (_ & _ & _ & _ & Hsaved & Hsorted).
  split; [done|]. by apply Forall_forall.
Qed.

End CheckpointFacts.

(** ** The prediction tensors *)

Section PredictionFacts.

Import Training.

Lemma threshold_binary (p : float) : threshold p = Num 0 ∨ threshold p = Num 1.
Proof. unfold threshold. destruct (fgt p _); auto. Qed.

Lemma threshold_twice (p : float) : threshold (threshold p) = threshold p.
Proof. by destruct (threshold_binary p) as [-> | ->]. Qed.

Lemma val_loop_preds_elements (batches : list (list (list float))) (b i j : nat) :
  element (val_loop_preds batches) b i j = threshold <$> element batches b i j.
Proof.
  rewrite val_loop_preds_map. unfold element.
  rewrite list_lookup_fmap. destruct (batches !! b) as [probs|]; simpl; [|done].
  rewrite harden_map, list_lookup_fmap.
  destruct (probs !! i) as [probs_i|]; simpl; [|done].
  by rewrite list_lookup_fmap.
Qed.

(** X17: the prediction tensors of the validation and the test loop have
    the shape of the sigmoid outputs (an element exists exactly where one
    existed), hold nothing but 0 and 1, and the two loops compute the same;
    thresholding a tensor that is already thresholded changes nothing. *)
Theorem predictions_binary (batches : list (list (list float))) :
  test_loop_preds batches = val_loop_preds batches
  ∧ length (val_loop_preds batches) = length batches
  ∧ (∀ b i j, is_Some (element (val_loop_preds batches) b i j)
              ↔ is_Some (element batches b i j))
  ∧ (∀ b i j q, element (val_loop_preds batches) b i j = Some q →
                q = Num 0 ∨ q = Num 1)
  ∧ val_loop_preds (val_loop_preds batches) = val_loop_preds batches.
Proof.
  split_and!.
  - by rewrite test_loop_preds_map, val_loop_preds_map.
  - by rewrite val_loop_preds_map, length_fmap.
  - intros b i j. rewrite val_loop_preds_elements. apply fmap_is_Some.
  - intros b i j q. rewrite val_loop_preds_elements.
    destruct (element batches b i j) as [p|]; simpl; [|done].
    intros [= <-]. apply threshold_binary.
  - rewrite !val_loop_preds_map, <- list_fmap_compose.
    apply list_fmap_ext. intros _ probs _. simpl.
    rewrite !harden_map, <- list_fmap_compose.
    apply list_fmap_ext. intros _ probs_i _. simpl.
    rewrite <- list_fmap_compose.
    apply list_fmap_ext. intros _ p _. simpl. apply threshold_twice.
Qed.

(** The two outputs of a sample are thresholded one by one, so a row of
    predictions may name both classes or none. *)
Example predictions_not_one_hot :
  val_loop_preds [[[Num (6 # 10); Num (7 # 10)]; [Num (2 # 10); Num (4 # 10)]]]
  = [[[Num 1; Num 1]; [Num 0; Num 0]]].
Proof. reflexivity. Qed.

End PredictionFacts.

(** ** The label encoding *)

Section LabelFacts.

Import Labels.

Lemma categories_elem (y : list Z) (c : Z) : c ∈ categories y ↔ c ∈ y.
Proof.
  unfold categories. rewrite merge_sort_Permutation. apply elem_of_remove_dups.
Qed.

Lemma categories_NoDup (y : list Z) : NoDup (categories y).
Proof.
  unfold categories. rewrite merge_sort_Permutation. apply NoDup_remove_dups.
Qed.

Lemma categories_sorted (y : list Z) : StronglySorted Z.le (categories y).
Proof. apply (StronglySorted_merge_sort Z.le). Qed.

Lemma one_hot_lookup (cats : list Z) (label : Z) (i : nat) (c : Z) :
  cats !! i = Some c →
  one_hot cats label !! i = Some (if bool_decide (c = label) then 1 else 0).
Proof. intros Hc. unfold one_hot. by rewrite list_lookup_fmap, Hc. Qed.

(** The cast keeps the integers of at most 24 bits, 2^24 included. *)
Lemma float32_of_int_exact (z : Z) :
  - 2 ^ 24 ≤ z ≤ 2 ^ 24 → float32_of_int z = z.
Proof.
  intros Hz. unfold float32_of_int. case_bool_decide as Ha; [done|].
  assert (z = 2 ^ 24 ∨ z = - 2 ^ 24) as [-> | ->] by lia; by vm_compute.
Qed.

(** X18: the label rows made by [__init__], which first casts the labels
    to float32: the categories are the distinct cast labels of this dataset
    in increasing order, every row is as wide as there are categories, and
    the row of a label holds a single 1, in the column of its cast value,
    and 0 elsewhere; so two labels get equal rows exactly when the cast
    makes them equal, which for labels of at most 24 bits (as the classes 0
    and 1 are) is when they are equal. *)
Theorem fit_transform_one_hot (sequences : list (list string)) (y : list Z)
    (max_length k : nat) (label : Z) :
  y !! k = Some label →
  let cats := categories (float32_of_int <$> y) in
  ∃ self row col,
    init sequences y max_length = Some self
    ∧ Encoding.sequences self = sequences
    ∧ Encoding.max_length self = max_length
    ∧ Encoding.y self !! k = Some row
    ∧ length (Encoding.y self) = length y
    ∧ (∀ c, c ∈ cats ↔ ∃ l, l ∈ y ∧ c = float32_of_int l)
    ∧ NoDup cats
    ∧ StronglySorted Z.le cats
    ∧ length row = length cats
    ∧ cats !! col = Some (float32_of_int label)
    ∧ row !! col = Some 1
    ∧ (∀ j, (j < length row)%nat → j ≠ col → row !! j = Some 0)
    ∧ (∀ k' label', y !! k' = Some label' →
         (Encoding.y self !! k' = Some row
          ↔ float32_of_int label' = float32_of_int label))
    ∧ (∀ l, - 2 ^ 24 ≤ l ≤ 2 ^ 24 → float32_of_int l = l).
Proof.
  intros Hk cats.
  assert (float32_of_int label ∈ cats) as Hin.
  { apply categories_elem. apply list_elem_of_fmap_2.
    by eapply list_elem_of_lookup_2. }
  apply list_elem_of_lookup_1 in Hin as [col Hcol].
  assert (∀ j c, cats !! j = Some c → c = float32_of_int label → j = col) as Huniq.
  { intros j c Hj ->. by eapply NoDup_lookup; [apply categories_NoDup|..]. }
  assert (fit_transform y
          = Some (one_hot cats <$> (float32_of_int <$> y))) as Hfit.
  { unfold fit_transform. fold cats.
    destruct y as [|l y]; [by rewrite lookup_nil in Hk|]. done. }
  eexists _, (one_hot cats (float32_of_int label)), col. split_and!.
  - unfold init. rewrite Hfit. reflexivity.
  - done.
  - done.
  - simpl. by rewrite !list_lookup_fmap, Hk.
  - simpl. by rewrite !length_fmap.
  - intros c. unfold cats. rewrite categories_elem, list_elem_of_fmap.
    split; intros (l & ? & ?); by exists l.
  - apply categories_NoDup.
  - apply categories_sorted.
  - unfold one_hot. by rewrite length_fmap.
  - done.
  - rewrite (one_hot_lookup _ _ _ _ Hcol). by rewrite bool_decide_eq_true_2.
  - intros j Hj Hne. unfold one_hot in Hj. rewrite length_fmap in Hj.
    destruct (lookup_lt_is_Some_2 _ _ Hj) as [c Hc].
    rewrite (one_hot_lookup _ _ _ _ Hc). case_bool_decide; [|done].
    by destruct Hne; eapply Huniq.
  - intros k' label' Hk'. simpl. rewrite !list_lookup_fmap, Hk'. simpl. split.
    + intros [= Hrow].
      assert (one_hot cats (float32_of_int label') !! col = Some 1) as H1.
      { rewrite Hrow, (one_hot_lookup _ _ _ _ Hcol).
        by rewrite bool_decide_eq_true_2. }
      rewrite (one_hot_lookup _ _ _ _ Hcol) in H1. by case_bool_decide.
    + by intros ->.
  - apply float32_of_int_exact.
Qed.

Lemma fit_transform_one_hot_witness :
  ∃ self row col,
    init [] [1; 0; 0; 1] 310 = Some self
    ∧ Encoding.sequences self = []
    ∧ Encoding.max_length self = 310%nat
    ∧ Encoding.y self !! 1%nat = Some row
    ∧ length (Encoding.y self) = length [1; 0; 0; 1]
    ∧ (∀ c, c ∈ categories (float32_of_int <$> [1; 0; 0; 1])
            ↔ ∃ l, l ∈ [1; 0; 0; 1] ∧ c = float32_of_int l)
    ∧ NoDup (categories (float32_of_int <$> [1; 0; 0; 1]))
    ∧ StronglySorted Z.le (categories (float32_of_int <$> [1; 0; 0; 1]))
    ∧ length row = length (categories (float32_of_int <$> [1; 0; 0; 1]))
    ∧ categories (float32_of_int <$> [1; 0; 0; 1]) !! col = Some (float32_of_int 0)
    ∧ row !! col = Some 1
    ∧ (∀ j, (j < length row)%nat → j ≠ col → row !! j = Some 0)
    ∧ (∀ k' label', [1; 0; 0; 1] !! k' = Some label' →
         (Encoding.y self !! k' = Some row
          ↔ float32_of_int label' = float32_of_int 0))
    ∧ (∀ l, - 2 ^ 24 ≤ l ≤ 2 ^ 24 → float32_of_int l = l).
Proof.
  apply (fit_transform_one_hot [] [1; 0; 0; 1] 310 1 0). reflexivity.
Defined.

(** Both classes present: rows of width two; a single class: width one; no
    label at all: the encoder refuses to fit. *)
Example fit_transform_two_classes :
  fit_transform [1; 0; 0; 1] = Some [[0; 1]; [1; 0]; [1; 0]; [0; 1]].
Proof. reflexivity. Qed.

Example fit_transform_single_class :
  fit_transform [1; 1; 1] = Some [[1]; [1]; [1]].
Proof. reflexivity. Qed.

Example init_no_labels : init [] [] 310 = None.
Proof. reflexivity. Qed.

(** Two labels one apart above 2^24 are the same float32 value, one
    category, and get the same row. *)
Example fit_transform_float32_collision :
  float32_of_int 16777217 = 16777216
  ∧ float32_of_int 16777219 = 16777220
  ∧ fit_transform [16777216; 16777217] = Some [[1]; [1]].
Proof. vm_compute. done. Qed.

End LabelFacts.

(** ** Motifs and the ends of their chromosome *)

Section ChromosomeEnds.

Import Table Tokenize.

Variable files : string → option (list Mapper.token).

(** X19: on the table's 64-bit columns, where no operation of the
    expansion wraps, a motif whose center lies at least 500 nucleotides
    from both ends of its chromosome is cut without error and without
    wrap-around: both boundaries of its expanded window are looked up at
    their own positions and the sequence is the plain run of tokens between
    the two entries. *)
Theorem motif_inside_chromosome (m : motif) (tokenized_chr : list Mapper.token) :
  let center := start m + (end_ m - start m) `div` 2 in
  let mapper := Mapper.create_mapper tokenized_chr in
  no_wrap (start m) (end_ m) →
  files (chrom_file (chr m)) = Some tokenized_chr →
  500 ≤ center →
  center + 500 < Z.of_nat (Mapper.nucleotide_count tokenized_chr) →
  ∃ ts te : nat,
    (start (expand_row64 m), end_ (expand_row64 m)) = (center - 500, center + 500)
    ∧ mapper !! Z.to_nat (center - 500) = Some (Z.of_nat ts)
    ∧ mapper !! Z.to_nat (center + 500) = Some (Z.of_nat te)
    ∧ (ts ≤ te < length tokenized_chr)%nat
    ∧ region files (expand_row64 m) = Some (take (te - ts) (drop ts tokenized_chr)).
Proof.
  intros center mapper Hnw Hfile Hlo Hhi. subst mapper.
  rewrite <- create_mapper_length in Hhi.
  destruct (slice_region_in_bounds_aux tokenized_chr (center - 500) (center + 500))
    as (vs & ve & Hvs & Hve & Hslice); [lia..|].
  pose proof Hvs as Hvs'. pose proof Hve as Hve'.
  apply create_mapper_lookup in Hvs' as (ts & tok_s & -> & Hts & _).
  apply create_mapper_lookup in Hve' as (te & tok_e & -> & Hte & _).
  pose proof (create_mapper_monotone tokenized_chr
    (Z.to_nat (center - 500)) (Z.to_nat (center + 500)) _ _
    ltac:(lia) Hvs Hve) as Hmono.
  pose proof (lookup_lt_Some _ _ _ Hts). pose proof (lookup_lt_Some _ _ _ Hte).
  assert (Motif.expand_window64 (start m) (end_ m) = (center - 500, center + 500))
    as Hwin by (by rewrite (expand_window64_no_wrap _ _ Hnw)).
  exists ts, te. split_and!; [|done|done|lia|done|].
  - unfold expand_row64. cbn [start end_]. by rewrite Hwin.
  - unfold region, expand_row64. cbn [chr start end_]. rewrite Hfile, Hwin.
    simpl. rewrite Hslice.
    f_equal. unfold Mapper.token in *.
    pose proof (slice_nonneg tokenized_chr (Z.of_nat ts) (Z.of_nat te)) as Hsl.
    rewrite !Nat2Z.id in Hsl. apply Hsl; lia.
Qed.

(** On the 64-bit columns too a motif centred within 500 nucleotides of
    its chromosome's end is not cut, for a chromosome of fewer than 2^61
    nucleotides: one of the two lookups is out of range even where the
    arithmetic wraps. *)
Lemma window64_out_of_range (start end_ len : Z) :
  Motif.is_int64 start → Motif.is_int64 end_ →
  0 ≤ len < 2 ^ 61 →
  len ≤ start + (end_ - start) `div` 2 + 500 →
  ¬ (- len ≤ (Motif.expand_window64 start end_).1 < len
     ∧ - len ≤ (Motif.expand_window64 start end_).2 < len).
Proof.
  unfold Motif.is_int64, Motif.int64_min, Motif.int64_max.
  unfold Motif.expand_window64, Motif.sub64, Motif.add64, Motif.floordiv64,
    Motif.wrap64. cbn [fst snd].
  intros Hs He Hlen Hc.
  Z.div_mod_to_equations. lia.
Qed.

Lemma motif_near_chromosome_end64 (m : motif) (tokenized_chr : list Mapper.token) :
  Motif.is_int64 (start m) → Motif.is_int64 (end_ m) →
  Z.of_nat (Mapper.nucleotide_count tokenized_chr) < 2 ^ 61 →
  files (chrom_file (chr m)) = Some tokenized_chr →
  Z.of_nat (Mapper.nucleotide_count tokenized_chr)
  ≤ start m + (end_ m - start m) `div` 2 + 500 →
  region files (expand_row64 m) = None.
Proof.
  intros Hs He Hlen Hfile Hend.
  rewrite <- create_mapper_length in Hlen, Hend.
  unfold region, expand_row64. cbn [chr start end_]. rewrite Hfile.
  apply eq_None_not_Some. intros Hsome. cbn [mbind option_bind] in Hsome.
  apply slice_region_is_Some in Hsome.
  apply (window64_out_of_range (start m) (end_ m)
    (Z.of_nat (length (Mapper.create_mapper tokenized_chr)))); [done|done|lia|done|done].
Qed.

(** X20: a motif centred within 500 nucleotides of the end of its
    chromosome is not cut at all: the lookup of its window's end is beyond
    the mapper and raises, and with it the whole loop over the table and the
    building of the dataset (near the chromosome's start, by contrast, the
    lookup wraps around and nothing is raised).  The same holds with the
    window computed on the table's 64-bit columns, for a chromosome of
    fewer than 2^61 nucleotides. *)
Theorem motif_near_chromosome_end (data : @Split.frame motif) (label : Z)
    (m : motif) (tokenized_chr : list Mapper.token) :
  let center := start m + (end_ m - start m) `div` 2 in
  (label, expand_row m) ∈ expand_all data →
  files (chrom_file (chr m)) = Some tokenized_chr →
  Z.of_nat (Mapper.nucleotide_count tokenized_chr) ≤ center + 500 →
  (region files (expand_row m) = None
   ∧ tokenize files ((expand_all data).*2) = None
   ∧ grover_dataset files (expand_all data) = None)
  ∧ (Motif.is_int64 (start m) → Motif.is_int64 (end_ m) →
     Z.of_nat (Mapper.nucleotide_count tokenized_chr) < 2 ^ 61 →
     region files (expand_row64 m) = None
     ∧ ((label, expand_row64 m) ∈ expand_all64 data →
        tokenize files ((expand_all64 data).*2) = None
        ∧ grover_dataset files (expand_all64 data) = None)).
Proof.
  intros center Hin Hfile Hend. split.
  - rewrite <- create_mapper_length in Hend.
    assert (region files (expand_row m) = None) as Hregion.
    { unfold region, expand_row. cbn [chr start end_]. rewrite Hfile. simpl.
      unfold Motif.expand_window. cbn [fst snd]. fold center.
      unfold Mapper.slice_region.
      rewrite (getitem_out_of_range _ (center + 500)) by lia.
      by destruct (Py.getitem _ (center - 500)). }
    assert (tokenize files ((expand_all data).*2) = None) as Hnone.
    { rewrite tokenize_regroup. apply mapM_None, Exists_exists.
      exists (expand_row m). split; [|done].
      rewrite (regroup_Permutation ((expand_all data).*2)).
      apply list_elem_of_fmap. by exists (label, expand_row m). }
    split_and!; [done..|]. unfold grover_dataset. by rewrite Hnone.
  - intros Hs He Hlen.
    pose proof (motif_near_chromosome_end64 m tokenized_chr Hs He Hlen Hfile Hend)
      as Hregion.
    split; [done|]. intros Hin64.
    assert (tokenize files ((expand_all64 data).*2) = None) as Hnone.
    { rewrite tokenize_regroup. apply mapM_None, Exists_exists.
      exists (expand_row64 m). split; [|done].
      rewrite (regroup_Permutation ((expand_all64 data).*2)).
      apply list_elem_of_fmap. by exists (label, expand_row64 m). }
    split; [done|]. unfold grover_dataset. by rewrite Hnone.
Qed.

End ChromosomeEnds.

Lemma motif_inside_chromosome_witness :
  ∃ ts te : nat,
    (Table.start (Table.expand_row64 (Table.Motif "chr2" 595 606 1)),
     Table.end_ (Table.expand_row64 (Table.Motif "chr2" 595 606 1)))
    = (595 + (606 - 595) `div` 2 - 500, 595 + (606 - 595) `div` 2 + 500)
    ∧ Mapper.create_mapper Mapper.example_chr
      !! Z.to_nat (595 + (606 - 595) `div` 2 - 500) = Some (Z.of_nat ts)
    ∧ Mapper.create_mapper Mapper.example_chr
      !! Z.to_nat (595 + (606 - 595) `div` 2 + 500) = Some (Z.of_nat te)
    ∧ (ts ≤ te < length Mapper.example_chr)%nat
    ∧ Tokenize.region Tokenize.uniform_files
        (Table.expand_row64 (Table.Motif "chr2" 595 606 1))
      = Some (take (te - ts) (drop ts Mapper.example_chr)).
Proof.
  apply (motif_inside_chromosome Tokenize.uniform_files
    (Table.Motif "chr2" 595 606 1) Mapper.example_chr).
  - unfold Table.no_wrap, Motif.is_int64. vm_compute. repeat split; congruence.
  - reflexivity.
  - vm_compute. congruence.
  - vm_compute. reflexivity.
Defined.

(** With coordinates far enough apart the subtraction wraps, and a motif
    whose center on paper is 999 has its window looked up far below the
    chromosome: the cut raises. *)
Example motif_wrapped_difference :
  Motif.expand_window (- 2 ^ 63 + 2000) (2 ^ 63 - 1) = (499, 1499)
  ∧ Motif.expand_window64 (- 2 ^ 63 + 2000) (2 ^ 63 - 1)
    = (- 2 ^ 63 + 499, - 2 ^ 63 + 1499)
  ∧ Tokenize.region (λ _, Some (replicate 500 "ACGT"%string))
      (Table.expand_row64 (Table.Motif "chr2" (- 2 ^ 63 + 2000) (2 ^ 63 - 1) 1))
    = None.
Proof. vm_compute. done. Qed.

Lemma motif_near_chromosome_end_witness :
  (Tokenize.region Tokenize.uniform_files
     (Table.expand_row (Table.Motif "chr2" 800 811 1)) = None
   ∧ Tokenize.tokenize Tokenize.uniform_files
       ((Table.expand_all
           (Tokenize.example_sorted ++ [(5, Table.Motif "chr2" 800 811 1)])).*2) = None
   ∧ Tokenize.grover_dataset Tokenize.uniform_files
       (Table.expand_all
          (Tokenize.example_sorted ++ [(5, Table.Motif "chr2" 800 811 1)])) = None)
  ∧ (Tokenize.region Tokenize.uniform_files
       (Table.expand_row64 (Table.Motif "chr2" 800 811 1)) = None
     ∧ Tokenize.tokenize Tokenize.uniform_files
         ((Table.expand_all64
             (Tokenize.example_sorted ++ [(5, Table.Motif "chr2" 800 811 1)])).*2)
       = None
     ∧ Tokenize.grover_dataset Tokenize.uniform_files
         (Table.expand_all64
            (Tokenize.example_sorted ++ [(5, Table.Motif "chr2" 800 811 1)]))
       = None).
Proof.
  destruct (motif_near_chromosome_end Tokenize.uniform_files
    (Tokenize.example_sorted ++ [(5, Table.Motif "chr2" 800 811 1)])
    5 (Table.Motif "chr2" 800 811 1) Mapper.example_chr) as [Hint H64].
  - unfold Table.expand_all. rewrite fmap_app. apply elem_of_app. right.
    apply list_elem_of_singleton. reflexivity.
  - reflexivity.
  - vm_compute. congruence.
  - split; [exact Hint|].
    destruct H64 as [Hregion Hloop].
    + vm_compute. split; congruence.
    + vm_compute. split; congruence.
    + vm_compute. reflexivity.
    + split; [exact Hregion|]. apply Hloop.
      unfold Table.expand_all64. rewrite fmap_app. apply elem_of_app. right.
      apply list_elem_of_singleton. reflexivity.
Defined.
